(** * MS-SSIM (piq/ms_ssim.py): a shallow embedding and its verified properties

    The development follows the layout of the Python module:

    - [Torch]: the tensor operations the module calls ([F.pad], [F.avg_pool2d],
      [torch.stack], [torch.relu], [**] with broadcasting, [torch.prod],
      [torch.sum], [torch.mean], [torch.atan2], ...), over exact real numbers;
    - [Py]: exceptions and the error monad the Python control flow runs in;
    - [MsSsim]: [_multi_scale_ssim], [_multi_scale_ssim_complex],
      [multi_scale_ssim] and [MultiScaleSSIMLoss], parametrised by the
      collaborators imported from [piq.utils], [piq.functional] and [piq.ssim].

    Scalars are real numbers: float32 rounding, NaN and infinities are outside
    the model. *)

From Stdlib Require Import Reals Lra Lia List ZArith QArith Qpower String Bool Arith.
Import ListNotations.

(* ===================================================================== *)
(** * Python exceptions and the error monad *)
(* ===================================================================== *)

Module Py.

(** The exceptions that can leave the module.  [ValueError] is the one raised
    by the size checks of the two pyramid engines and carries the [min_size]
    its message prints; [KeyError] is a failed dictionary lookup; [TypeError]
    and [RuntimeError] come from [torch.stack]; [Raised] is whatever a
    collaborator imported from another module raised. *)
Inductive exn : Type :=
| ValueError (expected_at_least : Q)
| KeyError (key : string)
| TypeError
| RuntimeError
| Raised (origin : string).

Definition Result (A : Type) : Type := (exn + A)%type.

Definition ret {A : Type} (a : A) : Result A := inr a.
Definition raise {A : Type} (e : exn) : Result A := inl e.

Definition bind {A B : Type} (m : Result A) (k : A -> Result B) : Result B :=
  match m with
  | inl e => inl e
  | inr a => k a
  end.

(** A call into a collaborator: its exception propagates unchanged. *)
Definition call {A : Type} (m : string + A) : Result A :=
  match m with
  | inl e => inl (Raised e)
  | inr a => inr a
  end.

Declare Scope py_scope.
Delimit Scope py_scope with py.
Notation "x <- m ;; k" := (bind m (fun x => k))
  (at level 61, m at next level, right associativity) : py_scope.
Notation "' pat <- m ;; k" := (bind m (fun x => match x with pat => k end))
  (at level 61, pat pattern, m at next level, right associativity) : py_scope.

End Py.

(* ===================================================================== *)
(** * Tensors *)
(* ===================================================================== *)

Module Torch.

Local Open Scope R_scope.

(** A tensor is a shape together with its entries, addressed by multi-index.
    Entries outside the shape are never read by a well-shaped program. *)
Record Tensor : Type := mkTensor {
  shape : list nat;
  data : list nat -> R
}.

(** [x.dim()] *)
Definition dim (t : Tensor) : nat := List.length (shape t).

(** Python's index normalisation: a negative [d] counts from the end. *)
Definition axis (rank : nat) (d : Z) : nat :=
  Z.to_nat (if (d <? 0)%Z then (d + Z.of_nat rank)%Z else d).

(** [x.size(d)] (also [x.shape[d]]). *)
Definition size (t : Tensor) (d : Z) : nat := nth (axis (dim t) d) (shape t) 0%nat.

Definition insert_at (d k : nat) (idx : list nat) : list nat :=
  firstn d idx ++ k :: skipn d idx.

Definition remove_at (d : nat) (idx : list nat) : list nat :=
  firstn d idx ++ skipn (S d) idx.

(** ** Element-wise operations *)

Definition tmap (f : R -> R) (t : Tensor) : Tensor :=
  mkTensor (shape t) (fun idx => f (data t idx)).

(** Binary element-wise operation on tensors of one shape. *)
Definition tmap2 (f : R -> R -> R) (a b : Tensor) : Tensor :=
  mkTensor (shape a) (fun idx => f (data a idx) (data b idx)).

(** Index into an operand that is broadcast: a dimension of extent 1 is
    always read at position 0. *)
Definition bcast_index (sh idx : list nat) : list nat :=
  map (fun di => if (fst di =? 1)%nat then 0%nat else snd di) (combine sh idx).

(** Binary operation whose right operand is broadcast against the left one
    (both of the same rank; every extent of [b] is 1 or the extent of [a]). *)
Definition broadcast2 (f : R -> R -> R) (a b : Tensor) : Tensor :=
  mkTensor (shape a) (fun idx => f (data a idx) (data b (bcast_index (shape b) idx))).

(** [torch.relu] *)
Definition relu (t : Tensor) : Tensor := tmap (Rmax 0) t.

(** ** Values that are not real numbers

    A float is a real number, an infinity or NaN.  The power below is the
    IEEE power [**] computes, without rounding and without the sign of zero:
    [x ** 0 = 1] for every [x], NaN included; a positive base gives
    [exp (w * ln x)]; [0 ** w] is [0] for [w > 0] and [+inf] for [w < 0]; a
    negative base gives a real number only for an integral exponent (with the
    sign of [(-1) ** w]) and NaN otherwise. *)
Inductive fval : Type :=
| Fin (r : R)
| PInf
| NInf
| NaN.

(** The exponent is a whole number, and which one. *)
Definition whole (w : R) : Z := (up w - 1)%Z.
Definition is_whole (w : R) : bool := if Req_dec_T w (IZR (whole w)) then true else false.
Definition is_odd (w : R) : bool := is_whole w && Z.odd (whole w).

Definition fpow (base : fval) (w : R) : fval :=
  if Req_dec_T w 0 then Fin 1
  else
    match base with
    | NaN => NaN
    | Fin x =>
        if Rlt_dec 0 x then Fin (Rpower x w)
        else if Req_dec_T x 0 then (if Rlt_dec 0 w then Fin 0 else PInf)
        else if is_whole w
             then Fin ((if is_odd w then -1 else 1) * Rpower (- x) w)
             else NaN
    | PInf => if Rlt_dec 0 w then PInf else Fin 0
    | NInf => if Rlt_dec 0 w then (if is_odd w then NInf else PInf) else Fin 0
    end.

(** [x ** w] on real numbers: the value of [fpow] where it is a real number.
    Where the float result is an infinity ([x = 0], [w < 0]) or NaN ([x < 0],
    [w] not whole) no real number stands for it and [0] is written: the
    real-valued tensors of this file are the finite fragment of the
    computation, and [Extended] below carries the other values. *)
Definition rpow (x w : R) : R :=
  match fpow (Fin x) w with
  | Fin r => r
  | _ => 0
  end.

(** [t ** w] with [w] broadcast. *)
Definition pow_tensor (t w : Tensor) : Tensor := broadcast2 rpow t w.

(** [t * w] with [w] broadcast. *)
Definition mul_bcast (t w : Tensor) : Tensor := broadcast2 Rmult t w.

(** [t.pow(2)] *)
Definition pow2 (t : Tensor) : Tensor := tmap (fun v => v ^ 2) t.

Definition tsqrt (t : Tensor) : Tensor := tmap sqrt t.
Definition tcos (t : Tensor) : Tensor := tmap cos t.
Definition tsin (t : Tensor) : Tensor := tmap sin t.
Definition tadd (a b : Tensor) : Tensor := tmap2 Rplus a b.
Definition tmul (a b : Tensor) : Tensor := tmap2 Rmult a b.
Definition tsub (a b : Tensor) : Tensor := tmap2 Rminus a b.

(** [x / data_range] *)
Definition div_scalar (t : Tensor) (r : R) : Tensor := tmap (fun v => v / r) t.

(** [torch.ones_like] *)
Definition ones_like (t : Tensor) : Tensor := mkTensor (shape t) (fun _ => 1).

(** The two-argument arctangent, [atan2 y x]: the angle of the point [(x, y)]
    in [(-PI, PI]], with [atan2 0 0 = 0]. *)
Definition atan2 (y x : R) : R :=
  if Rlt_dec 0 x then atan (y / x)
  else if Rlt_dec x 0 then
         (if Rle_dec 0 y then atan (y / x) + PI else atan (y / x) - PI)
  else if Rlt_dec 0 y then PI / 2
  else if Rlt_dec y 0 then - (PI / 2)
  else 0.

(** [torch.atan2(a, b)] *)
Definition tatan2 (a b : Tensor) : Tensor := tmap2 atan2 a b.

(** ** Views and slicing *)

(** [w.view(-1, 1, 1)] of a one-dimensional tensor. *)
Definition view_m1_1_1 (w : Tensor) : Tensor :=
  mkTensor [size w 0; 1%nat; 1%nat] (fun idx => data w [hd 0%nat idx]).

(** [x[..., i]] *)
Definition select_last (x : Tensor) (i : nat) : Tensor :=
  mkTensor (removelast (shape x)) (fun idx => data x (idx ++ [i])).

(** [t.repeat(reps)]: the tensor is first given leading dimensions of extent 1
    up to the length of [reps], then tiled. *)
Definition repeat_tensor (t : Tensor) (reps : list nat) : Tensor :=
  let lead := (List.length reps - dim t)%nat in
  let sh := List.repeat 1%nat lead ++ shape t in
  mkTensor (map (fun rs => (fst rs * snd rs)%nat) (combine reps sh))
           (fun idx => data t (skipn lead (map (fun im => (fst im mod snd im)%nat) (combine idx sh)))).

(** ** Reductions along one dimension *)

Definition Rsum (l : list R) : R := fold_right Rplus 0 l.
Definition Rprod (l : list R) : R := fold_right Rmult 1 l.
Definition Rmean (l : list R) : R := Rsum l / INR (List.length l).

(** The entries of [t] along dimension [d] at the remaining index [idx]. *)
Definition fibre (t : Tensor) (d : nat) (idx : list nat) : list R :=
  map (fun k => data t (insert_at d k idx)) (seq 0 (nth d (shape t) 0%nat)).

Definition reduce_dim (f : list R -> R) (t : Tensor) (d : Z) : Tensor :=
  let d := axis (dim t) d in
  mkTensor (remove_at d (shape t)) (fun idx => f (fibre t d idx)).

(** [torch.prod(t, dim=d)], [torch.sum(t, dim=d)], [torch.mean(t, dim=d)]. *)
Definition prod (t : Tensor) (d : Z) : Tensor := reduce_dim Rprod t d.
Definition sum (t : Tensor) (d : Z) : Tensor := reduce_dim Rsum t d.
Definition mean (t : Tensor) (d : Z) : Tensor := reduce_dim Rmean t d.

(** ** Padding and pooling of (N, C, H, W) tensors *)

(** [F.pad(x, pad=[left, right, top, bottom], mode='replicate')]: the last
    dimension grows by left + right, the one before by top + bottom; a new
    entry copies the nearest entry of the original border. *)
Definition pad_replicate (x : Tensor) (pad : nat * nat * nat * nat) : Tensor :=
  match shape x, pad with
  | [n; c; h; w], (pl, pr, pt, pb) =>
      mkTensor [n; c; (h + pt + pb)%nat; (w + pl + pr)%nat]
        (fun idx =>
           match idx with
           | [i0; i1; i; j] =>
               data x [i0; i1; Nat.min (i - pt) (h - 1); Nat.min (j - pl) (w - 1)]
           | _ => 0
           end)
  | _, _ => x
  end.

(** Output extent of a pooling window of side [k], stride [k], no padding,
    floor rounding.  (An input shorter than the window is an error in torch;
    callers below never produce one.) *)
Definition pool_extent (k h : nat) : nat :=
  if (k <=? h)%nat then ((h - k) / k + 1)%nat else 0%nat.

(** [F.avg_pool2d(x, kernel_size=k, padding=0)]; the stride defaults to the
    kernel size. *)
Definition avg_pool2d (x : Tensor) (k : nat) : Tensor :=
  match shape x with
  | [n; c; h; w] =>
      mkTensor [n; c; pool_extent k h; pool_extent k w]
        (fun idx =>
           match idx with
           | [i0; i1; i; j] =>
               Rsum (map (fun a =>
                 Rsum (map (fun b => data x [i0; i1; (k * i + a)%nat; (k * j + b)%nat])
                           (seq 0 k)))
                 (seq 0 k)) / INR (k * k)
           | _ => 0
           end)
  | _ => x
  end.

(** ** Stacking *)

Definition shape_eqb (a b : list nat) : bool :=
  if list_eq_dec Nat.eq_dec a b then true else false.

(** [torch.stack(ts, dim=d)]: a new dimension of extent [len(ts)] is inserted
    at position [d]; an empty list or tensors of different shapes raise. *)
Definition stack (ts : list Tensor) (d : Z) : Py.Result Tensor :=
  match ts with
  | [] => Py.raise Py.RuntimeError
  | t0 :: _ =>
      if forallb (fun t => shape_eqb (shape t) (shape t0)) ts then
        let d := axis (S (dim t0)) d in
        Py.ret (mkTensor (insert_at d (List.length ts) (shape t0))
                  (fun idx => data (nth (nth d idx 0%nat) ts t0) (remove_at d idx)))
      else Py.raise Py.RuntimeError
  end.

End Torch.

(* ===================================================================== *)
(** * The module [piq/ms_ssim.py] *)
(* ===================================================================== *)

Module MsSsim.

Import Torch Py.
Local Open Scope py_scope.

(** The functions imported from [piq.utils], [piq.functional] and [piq.ssim].
    Their code is not part of this module; each may raise. *)
Class Collaborators : Type := {
  (** [_validate_input(input_tensors=(x, y), allow_5d, kernel_size,
      scale_weights, data_range)] *)
  _validate_input :
    Tensor -> Tensor -> bool -> Z -> option (list R + Tensor) -> R -> string + unit;
  (** [_adjust_dimensions(input_tensors=(x, y))] *)
  _adjust_dimensions : Tensor -> Tensor -> string + (Tensor * Tensor);
  (** [gaussian_filter(kernel_size, kernel_sigma)] *)
  gaussian_filter : Z -> R -> string + Tensor;
  (** [_ssim_per_channel(x, y, kernel, data_range, k1, k2)], returning
      [(ssim_val, cs)] *)
  _ssim_per_channel :
    Tensor -> Tensor -> Tensor -> R -> R -> R -> string + (Tensor * Tensor);
  (** [_ssim_per_channel_complex(x, y, kernel, data_range, k1, k2)] *)
  _ssim_per_channel_complex :
    Tensor -> Tensor -> Tensor -> R -> R -> R -> string + (Tensor * Tensor)
}.

(** [a < b] on the rationals, as a test. *)
Definition Qlt_bool (a b : Q) : bool := negb (Qle_bool b a).

(** [torch.tensor(l)] for a list of numbers. *)
Definition tensor_of_list (l : list R) : Tensor :=
  mkTensor [List.length l] (fun idx => nth (hd 0%nat idx) l 0%R).

(** [(kernel.size(-1) - 1) * 2 ** (levels - 1) + 1].  For [levels = 0] Python
    evaluates [2 ** (-1)] to [0.5], hence the rationals. *)
Definition min_size_of (kernel : Tensor) (levels : nat) : Q :=
  (inject_Z (Z.of_nat (size kernel (-1)) - 1) * 2 ^ (Z.of_nat levels - 1) + 1)%Q.

(** The local variables a pyramid loop reads and assigns. *)
Record Locals : Type := mkLocals {
  loc_x : Tensor;
  loc_y : Tensor;
  loc_mcs : list Tensor;
  loc_ssim_val : option Tensor
}.

(** [for iteration in range(levels): body] *)
Fixpoint for_range (body : nat -> Locals -> Result Locals)
         (iterations : list nat) (s : Locals) : Result Locals :=
  match iterations with
  | [] => ret s
  | iteration :: rest => s' <- body iteration s ;; for_range body rest s'
  end.

(** [torch.stack(mcs[:-1] + [ssim_val], dim=0)]; [ssim_val] is still [None]
    when the loop body never ran. *)
Definition stack_terms (mcs : list Tensor) (ssim_val : option Tensor) : Result Tensor :=
  match ssim_val with
  | None => raise TypeError
  | Some s => stack (removelast mcs ++ [s]) 0
  end.

(** Lines 232-236: padding and pooling of both images, the amount of padding
    read off [x]. *)
Definition downsample (x y : Tensor) : Tensor * Tensor :=
  let padding := Nat.max (size x 2 mod 2) (size x 3 mod 2) in
  let x := pad_replicate x (padding, 0%nat, padding, 0%nat) in
  let y := pad_replicate y (padding, 0%nat, padding, 0%nat) in
  let x := avg_pool2d x 2 in
  let y := avg_pool2d y 2 in
  (x, y).

(** Lines 242-245: the weighted combination of the stacked per-level terms. *)
Definition combine (stacked scale_weights_tensor : Tensor) : Tensor :=
  let mcs_ssim := relu stacked in
  mean (prod (pow_tensor mcs_ssim (view_m1_1_1 scale_weights_tensor)) 0) 1.

(** Lines 298-301: magnitude and phase of the clamped complex terms. *)
Definition complex_abs (mcs_ssim : Tensor) : Tensor :=
  let mcs_ssim_real := select_last mcs_ssim 0 in
  let mcs_ssim_imag := select_last mcs_ssim 1 in
  tsqrt (tadd (pow2 mcs_ssim_real) (pow2 mcs_ssim_imag)).

Definition complex_deg (mcs_ssim : Tensor) : Tensor :=
  let mcs_ssim_real := select_last mcs_ssim 0 in
  let mcs_ssim_imag := select_last mcs_ssim 1 in
  tatan2 mcs_ssim_imag mcs_ssim_real.

(** Lines 303-307: product of the powered magnitudes, sum of the weighted
    phases. *)
Definition complex_val_abs (mcs_ssim scale_weights_tensor : Tensor) : Tensor :=
  prod (pow_tensor (complex_abs mcs_ssim) (view_m1_1_1 scale_weights_tensor)) 0.

Definition complex_val_deg (mcs_ssim scale_weights_tensor : Tensor) : Tensor :=
  sum (mul_bcast (complex_deg mcs_ssim) (view_m1_1_1 scale_weights_tensor)) 0.

(** Lines 296-310. *)
Definition combine_complex (stacked scale_weights_tensor : Tensor) : Result Tensor :=
  let mcs_ssim := relu stacked in
  let msssim_val_abs := complex_val_abs mcs_ssim scale_weights_tensor in
  let msssim_val_deg := complex_val_deg mcs_ssim scale_weights_tensor in
  let msssim_val_real := tmul msssim_val_abs (tcos msssim_val_deg) in
  let msssim_val_imag := tmul msssim_val_abs (tsin msssim_val_deg) in
  v <- stack [msssim_val_real; msssim_val_imag] (-1) ;;
  ret (mean v 1).

(** [{'mean': torch.mean, 'sum': torch.sum}[reduction]] *)
Definition dict_get {A : Type} (d : list (string * A)) (key : string) : Result A :=
  match find (fun kv => String.eqb (fst kv) key) d with
  | Some kv => ret (snd kv)
  | None => raise (KeyError key)
  end.

Definition scale_weights_from_ms_ssim_paper : list R :=
  [0.0448; 0.2856; 0.3001; 0.2363; 0.1333]%R.

(** [w if isinstance(w, torch.Tensor) else torch.tensor(w)] *)
Definition as_tensor (w : list R + Tensor) : Tensor :=
  match w with
  | inl l => tensor_of_list l
  | inr t => t
  end.

Section Code.

Context {collaborators : Collaborators}.

(** ** [_multi_scale_ssim] *)

Definition iteration_body (data_range : R) (kernel : Tensor) (k1 k2 : R)
           (iteration : nat) (s : Locals) : Result Locals :=
  let '(x, y) :=
    if (0 <? iteration)%nat then downsample (loc_x s) (loc_y s)
    else (loc_x s, loc_y s) in
  ' (ssim_val, cs) <- call (_ssim_per_channel x y kernel data_range k1 k2) ;;
  ret (mkLocals x y (loc_mcs s ++ [cs]) (Some ssim_val)).

Definition _multi_scale_ssim (x y : Tensor) (data_range : R) (kernel : Tensor)
           (scale_weights_tensor : Tensor) (k1 k2 : R) : Result Tensor :=
  let levels := size scale_weights_tensor 0 in
  let min_size := min_size_of kernel levels in
  if Qlt_bool (inject_Z (Z.of_nat (size x (-1)))) min_size
     || Qlt_bool (inject_Z (Z.of_nat (size x (-2)))) min_size
  then raise (ValueError min_size)
  else
    s <- for_range (iteration_body data_range kernel k1 k2) (seq 0 levels)
                   (mkLocals x y [] None) ;;
    stacked <- stack_terms (loc_mcs s) (loc_ssim_val s) ;;
    ret (combine stacked scale_weights_tensor).

(** ** [_multi_scale_ssim_complex] *)

Definition iteration_body_complex (data_range : R) (kernel : Tensor) (k1 k2 : R)
           (iteration : nat) (s : Locals) : Result Locals :=
  let x := loc_x s in
  let y := loc_y s in
  let x_real := select_last x 0 in
  let x_imag := select_last x 1 in
  let y_real := select_last y 0 in
  let y_imag := select_last y 1 in
  ' (x, y) <-
    (if (0 <? iteration)%nat then
       let padding := Nat.max (size x 2 mod 2) (size x 3 mod 2) in
       let x_real := pad_replicate x_real (padding, 0%nat, padding, 0%nat) in
       let x_imag := pad_replicate x_imag (padding, 0%nat, padding, 0%nat) in
       let y_real := pad_replicate y_real (padding, 0%nat, padding, 0%nat) in
       let y_imag := pad_replicate y_imag (padding, 0%nat, padding, 0%nat) in
       let x_real := avg_pool2d x_real 2 in
       let x_imag := avg_pool2d x_imag 2 in
       let y_real := avg_pool2d y_real 2 in
       let y_imag := avg_pool2d y_imag 2 in
       x <- stack [x_real; x_imag] (-1) ;;
       y <- stack [y_real; y_imag] (-1) ;;
       ret (x, y)
     else ret (x, y)) ;;
  ' (ssim_val, cs) <- call (_ssim_per_channel_complex x y kernel data_range k1 k2) ;;
  ret (mkLocals x y (loc_mcs s ++ [cs]) (Some ssim_val)).

Definition _multi_scale_ssim_complex (x y : Tensor) (data_range : R) (kernel : Tensor)
           (scale_weights_tensor : Tensor) (k1 k2 : R) : Result Tensor :=
  let levels := size scale_weights_tensor 0 in
  let min_size := min_size_of kernel levels in
  if Qlt_bool (inject_Z (Z.of_nat (size x (-2)))) min_size
     || Qlt_bool (inject_Z (Z.of_nat (size x (-3)))) min_size
  then raise (ValueError min_size)
  else
    s <- for_range (iteration_body_complex data_range kernel k1 k2) (seq 0 levels)
                   (mkLocals x y [] None) ;;
    stacked <- stack_terms (loc_mcs s) (loc_ssim_val s) ;;
    combine_complex stacked scale_weights_tensor.

(** ** [multi_scale_ssim] *)

Definition multi_scale_ssim (x y : Tensor) (kernel_size : Z) (kernel_sigma : R)
           (data_range : R) (reduction : string)
           (scale_weights : option (list R + Tensor)) (k1 k2 : R) : Result Tensor :=
  _ <- call (_validate_input x y true kernel_size scale_weights data_range) ;;
  ' (x, y) <- call (_adjust_dimensions x y) ;;
  let x := div_scalar x data_range in
  let y := div_scalar y data_range in
  let scale_weights :=
    match scale_weights with
    | None => inl scale_weights_from_ms_ssim_paper
    | Some w => w
    end in
  let scale_weights_tensor := as_tensor scale_weights in
  g <- call (gaussian_filter kernel_size kernel_sigma) ;;
  let kernel := repeat_tensor g [size x 1; 1%nat; 1%nat; 1%nat] in
  let _compute_msssim :=
    if (dim x =? 5)%nat then _multi_scale_ssim_complex else _multi_scale_ssim in
  msssim_val <- _compute_msssim x y data_range kernel scale_weights_tensor k1 k2 ;;
  if String.eqb reduction "none" then ret msssim_val
  else
    f <- dict_get [("mean"%string, mean); ("sum"%string, sum)] reduction ;;
    ret (f msssim_val 0%Z).

(** ** [MultiScaleSSIMLoss] *)

Record MultiScaleSSIMLoss : Type := mkLoss {
  self_reduction : string;
  self_scale_weights : Tensor;
  self_kernel_size : Z;
  self_kernel_sigma : R;
  self_k1 : R;
  self_k2 : R;
  self_data_range : R
}.

Definition __init__ (kernel_size : Z) (kernel_sigma k1 k2 : R)
           (scale_weights : option (list R + Tensor)) (reduction : string)
           (data_range : R) : MultiScaleSSIMLoss :=
  let scale_weights :=
    match scale_weights with
    | None => inl scale_weights_from_ms_ssim_paper
    | Some w => w
    end in
  mkLoss reduction (as_tensor scale_weights) kernel_size kernel_sigma k1 k2 data_range.

Definition forward (self : MultiScaleSSIMLoss) (prediction target : Tensor) : Result Tensor :=
  score <- multi_scale_ssim prediction target (self_kernel_size self)
             (self_kernel_sigma self) (self_data_range self) (self_reduction self)
             (Some (inr (self_scale_weights self))) (self_k1 self) (self_k2 self) ;;
  ret (tsub (ones_like score) score).

End Code.

End MsSsim.

(* ===================================================================== *)
(** * Lines 242-245 on values that need not be real numbers *)
(* ===================================================================== *)

Module Extended.

Import Torch.
Local Open Scope R_scope.

(** A tensor of floats that may be infinite or NaN. *)
Record FTensor : Type := mkFTensor {
  fshape : list nat;
  fdata : list nat -> fval
}.

(** A real-valued tensor seen as such a tensor. *)
Definition lift (t : Tensor) : FTensor :=
  mkFTensor (shape t) (fun idx => Fin (data t idx)).

(** [max(x, 0)] as [torch.relu] computes it: NaN stays NaN. *)
Definition frelu (v : fval) : fval :=
  match v with
  | Fin r => Fin (Rmax 0 r)
  | PInf => PInf
  | NInf => Fin 0
  | NaN => NaN
  end.

(** Product and sum of floats, without rounding: [0 * inf] and [inf - inf]
    are NaN, and NaN absorbs. *)
Definition fmul (a b : fval) : fval :=
  match a, b with
  | NaN, _ | _, NaN => NaN
  | Fin x, Fin y => Fin (x * y)
  | Fin x, PInf | PInf, Fin x =>
      if Rlt_dec 0 x then PInf else if Rlt_dec x 0 then NInf else NaN
  | Fin x, NInf | NInf, Fin x =>
      if Rlt_dec 0 x then NInf else if Rlt_dec x 0 then PInf else NaN
  | PInf, PInf | NInf, NInf => PInf
  | PInf, NInf | NInf, PInf => NInf
  end.

Definition fadd (a b : fval) : fval :=
  match a, b with
  | NaN, _ | _, NaN => NaN
  | Fin x, Fin y => Fin (x + y)
  | PInf, NInf | NInf, PInf => NaN
  | PInf, _ | _, PInf => PInf
  | NInf, _ | _, NInf => NInf
  end.

(** A sum divided by the number of its terms; no terms give [0 / 0]. *)
Definition fdiv_count (s : fval) (n : nat) : fval :=
  match s with
  | Fin r =>
      match n with
      | O => if Rlt_dec 0 r then PInf else if Rlt_dec r 0 then NInf else NaN
      | S _ => Fin (r / INR n)
      end
  | other => other
  end.

Definition fprod_list (l : list fval) : fval := fold_right fmul (Fin 1) l.
Definition fsum_list (l : list fval) : fval := fold_right fadd (Fin 0) l.
Definition fmean_list (l : list fval) : fval := fdiv_count (fsum_list l) (List.length l).

Definition relu (t : FTensor) : FTensor :=
  mkFTensor (fshape t) (fun idx => frelu (fdata t idx)).

(** [t ** w] with the real-valued [w] broadcast. *)
Definition pow_tensor (t : FTensor) (w : Tensor) : FTensor :=
  mkFTensor (fshape t) (fun idx => fpow (fdata t idx) (data w (bcast_index (shape w) idx))).

Definition reduce_dim (f : list fval -> fval) (t : FTensor) (d : Z) : FTensor :=
  let d := axis (List.length (fshape t)) d in
  mkFTensor (remove_at d (fshape t))
    (fun idx => f (map (fun k => fdata t (insert_at d k idx))
                       (seq 0 (nth d (fshape t) 0%nat)))).

Definition prod (t : FTensor) (d : Z) : FTensor := reduce_dim fprod_list t d.
Definition mean (t : FTensor) (d : Z) : FTensor := reduce_dim fmean_list t d.

(** Lines 242-245, as [MsSsim.combine], on the stacked terms as the primitive
    returned them. *)
Definition combine (stacked : FTensor) (scale_weights_tensor : Tensor) : FTensor :=
  let mcs_ssim := relu stacked in
  mean (prod (pow_tensor mcs_ssim (view_m1_1_1 scale_weights_tensor)) 0) 1.

(** [0 <= v], false of NaN. *)
Definition nonneg (v : fval) : Prop :=
  match v with
  | Fin r => 0 <= r
  | PInf => True
  | NInf | NaN => False
  end.

End Extended.

(* ===================================================================== *)
(** * Reference definitions and sample inputs *)
(* ===================================================================== *)

Module Reference.

Import Torch Py MsSsim.
Local Open Scope R_scope.

(** The pair of images the real-path loop holds at pyramid level [i]. *)
Fixpoint pyramid (i : nat) (x y : Tensor) : Tensor * Tensor :=
  match i with
  | O => (x, y)
  | S i' => downsample (fst (pyramid i' x y)) (snd (pyramid i' x y))
  end.

(** ** The combination as the specification words it (section 4.2) *)

(** "take contrast terms from levels 0..levels-2, append the SSIM value from
    the final level levels-1" *)
Definition spec_term (levels : nat) (cs ssim : nat -> Tensor) (i : nat) : Tensor :=
  if (i =? levels - 1)%nat then ssim i else cs i.

(** "clamp each to be non-negative (rectify negative correlations to zero)" *)
Definition spec_clamp (v : R) : R := if Rlt_dec v 0 then 0 else v.

(** "raise each level's term to the power of its corresponding scale weight;
    take the product across levels; average the result over the channel
    dimension" *)
Definition spec_combination (levels channels : nat) (weight : nat -> R)
           (term : nat -> Tensor) (n : nat) : R :=
  Rsum (map (fun c =>
              Rprod (map (fun i => rpow (spec_clamp (data (term i) [n; c])) (weight i))
                         (seq 0 levels)))
            (seq 0 channels))
  / INR channels.

(** ** Sample inputs *)

(** A (1, 1, h, w) image whose pixel at row [i], column [j] is [f i j]. *)
Definition image (h w : nat) (f : nat -> nat -> R) : Tensor :=
  mkTensor [1%nat; 1%nat; h; w]
    (fun idx => match idx with [_; _; i; j] => f i j | _ => 0 end).

(** A (1, 1, h, w, 2) complex image. *)
Definition image_complex (h w : nat) (re im : nat -> nat -> R) : Tensor :=
  mkTensor [1%nat; 1%nat; h; w; 2%nat]
    (fun idx => match idx with
                | [_; _; i; j; O] => re i j
                | [_; _; i; j; _] => im i j
                | _ => 0
                end).

(** A (channels, 1, k, k) kernel with uniform weights. *)
Definition box_kernel (channels k : nat) : Tensor :=
  mkTensor [channels; 1%nat; k; k] (fun _ => / INR (k * k)).

(** Stand-ins for the collaborators, used to run the code on sample inputs.
    They accept every input, leave ranks as they are, and return per-channel
    terms of shape (N, C) read off the top-left pixels; they are not the SSIM
    formulas of [piq.ssim]. *)
Definition sample_terms (x y : Tensor) : Tensor * Tensor :=
  (mkTensor [size x 0; size x 1]
     (fun idx => match idx with
                 | [n; c] => data x [n; c; 0; 0]%nat * data y [n; c; 0; 0]%nat
                 | _ => 0
                 end),
   mkTensor [size x 0; size x 1]
     (fun idx => match idx with
                 | [n; c] => data x [n; c; 0; 0]%nat - data y [n; c; 0; 0]%nat
                 | _ => 0
                 end)).

Definition sample_terms_complex (x y : Tensor) : Tensor * Tensor :=
  (mkTensor [size x 0; size x 1; 2%nat]
     (fun idx => match idx with
                 | [n; c; k] => data x [n; c; 0; 0; k]%nat * data y [n; c; 0; 0; k]%nat
                 | _ => 0
                 end),
   mkTensor [size x 0; size x 1; 2%nat]
     (fun idx => match idx with
                 | [n; c; k] => data x [n; c; 0; 0; k]%nat - data y [n; c; 0; 0; k]%nat
                 | _ => 0
                 end)).

#[export] Instance sample_collaborators : Collaborators := {
  _validate_input := fun _ _ _ _ _ _ => inr tt;
  _adjust_dimensions := fun x y => inr (x, y);
  gaussian_filter := fun kernel_size _ =>
    inr (mkTensor [1%nat; Z.to_nat kernel_size; Z.to_nat kernel_size]
           (fun _ => / IZR (kernel_size * kernel_size)));
  _ssim_per_channel := fun x y _ _ _ _ => inr (sample_terms x y);
  _ssim_per_channel_complex := fun x y _ _ _ _ => inr (sample_terms_complex x y)
}.

(** Two 161 x 162 images: the smallest height the default kernel and weights
    accept, one column more in width. *)
Definition x161 : Tensor := image 161 162 (fun _ _ => 0.5).
Definition y161 : Tensor := image 161 162 (fun i j => if (i + j =? 0)%nat then 0.25 else 0.5).

(** A 160 x 161 image: one row short of the default minimum. *)
Definition x160 : Tensor := image 160 161 (fun _ _ => 0.5).

(** The bound of the size checks as an integer, for at least one level. *)
Definition min_side (kernel : Tensor) (levels : nat) : Z :=
  ((Z.of_nat (size kernel (-1)) - 1) * 2 ^ (Z.of_nat levels - 1) + 1)%Z.

Definition default_weights : Tensor := tensor_of_list scale_weights_from_ms_ssim_paper.

(** The kernel the default call builds for one channel: side 11. *)
Definition sample_kernel : Tensor := box_kernel 1 11.

(** The terms the stand-in primitive returns at pyramid level [i] of the
    sample pair. *)
Definition sample_ssim (i : nat) : Tensor :=
  fst (sample_terms (fst (pyramid i x161 y161)) (snd (pyramid i x161 y161))).
Definition sample_cs (i : nat) : Tensor :=
  snd (sample_terms (fst (pyramid i x161 y161)) (snd (pyramid i x161 y161))).

(** One complex term, both parts negative, stacked as a (1, 1, 1, 2) tensor,
    and a single scale weight. *)
Definition negative_term : Tensor := mkTensor [1; 1; 1; 2]%nat (fun _ => -1).
Definition single_weight : Tensor := tensor_of_list [1].

(** The side of a pyramid level in closed form: [ceil (h / 2 ^ i)]. *)
Definition level_side (h i : nat) : nat := ((h + 2 ^ i - 1) / 2 ^ i)%nat.

(** A 2 x 2 stack of terms of shape (levels, N, C) = (2, 1, 1) and the same
    terms as complex numbers with zero imaginary part, shape (2, 1, 1, 2). *)
Definition real_terms : Tensor :=
  mkTensor [2; 1; 1]%nat (fun idx => match idx with O :: _ => 0.5 | _ => 0.25 end).
Definition real_terms_as_complex : Tensor :=
  mkTensor [2; 1; 1; 2]%nat
    (fun idx => match idx with
                | [l; n; c; O] => data real_terms [l; n; c]
                | _ => 0
                end).
Definition half_weights : Tensor := tensor_of_list [0.5; 0.5].

(** An empty scale-weight tensor, [torch.tensor([])]. *)
Definition no_weights : Tensor := tensor_of_list [].

(** A (1, 1, 161, 162, 2) complex image and a 160-row one. *)
Definition z161 : Tensor := image_complex 161 162 (fun _ _ => 0.5) (fun _ _ => 0.25).
Definition z160 : Tensor := image_complex 160 161 (fun _ _ => 0.5) (fun _ _ => 0.25).

(** Lines 279-290: one downsampling step of the complex loop, each part padded
    and pooled on its own and the two parts stacked again. *)
Definition downsample_complex (x y : Tensor) : Result (Tensor * Tensor) :=
  let padding := Nat.max (size x 2 mod 2) (size x 3 mod 2) in
  let part (t : Tensor) (k : nat) :=
    avg_pool2d (pad_replicate (select_last t k) (padding, 0%nat, padding, 0%nat)) 2 in
  bind (stack [part x 0%nat; part x 1%nat] (-1)) (fun x' =>
  bind (stack [part y 0%nat; part y 1%nat] (-1)) (fun y' =>
  ret (x', y'))).

(** The pair of images the complex loop holds at pyramid level [i]. *)
Fixpoint pyramid_complex (i : nat) (x y : Tensor) : Result (Tensor * Tensor) :=
  match i with
  | O => ret (x, y)
  | S i' => bind (pyramid_complex i' x y) (fun xy => downsample_complex (fst xy) (snd xy))
  end.

Definition level_complex (i : nat) (x y : Tensor) : Tensor * Tensor :=
  match pyramid_complex i x y with
  | inr xy => xy
  | inl _ => (x, y)
  end.

(** A second set of stand-ins: every term the primitives return is 1 (the
    complex ones 1 + 0i). *)
Definition unit_terms (x : Tensor) : Tensor * Tensor :=
  (mkTensor [size x 0; size x 1] (fun _ => 1),
   mkTensor [size x 0; size x 1] (fun _ => 1)).

Definition unit_terms_complex (x : Tensor) : Tensor * Tensor :=
  (mkTensor [size x 0; size x 1; 2%nat]
     (fun idx => match idx with [_; _; O] => 1 | _ => 0 end),
   mkTensor [size x 0; size x 1; 2%nat]
     (fun idx => match idx with [_; _; O] => 1 | _ => 0 end)).

Definition unit_collaborators : Collaborators := {|
  _validate_input := fun _ _ _ _ _ _ => inr tt;
  _adjust_dimensions := fun x y => inr (x, y);
  gaussian_filter := fun kernel_size _ =>
    inr (mkTensor [1%nat; Z.to_nat kernel_size; Z.to_nat kernel_size]
           (fun _ => / IZR (kernel_size * kernel_size)));
  _ssim_per_channel := fun x _ _ _ _ _ => inr (unit_terms x);
  _ssim_per_channel_complex := fun x _ _ _ _ _ => inr (unit_terms_complex x)
|}.

(** The exceptions an engine can raise besides the [ValueError] of its size
    check. *)
Definition after_check (e : exn) : Prop :=
  e = TypeError \/ e = RuntimeError \/ exists origin, e = Raised origin.

(** ** The complex combination as a formula on the stacked terms

    Each part of a term clamped on its own, then magnitude and phase, the
    magnitudes raised to the scale weights and multiplied, the phases
    weighted and added. *)
Definition clamped_re (stacked : Tensor) (l n c : nat) : R :=
  spec_clamp (data stacked [l; n; c; 0%nat]).
Definition clamped_im (stacked : Tensor) (l n c : nat) : R :=
  spec_clamp (data stacked [l; n; c; 1%nat]).
Definition level_magnitude (stacked : Tensor) (l n c : nat) : R :=
  sqrt (clamped_re stacked l n c ^ 2 + clamped_im stacked l n c ^ 2).
Definition level_phase (stacked : Tensor) (l n c : nat) : R :=
  atan2 (clamped_im stacked l n c) (clamped_re stacked l n c).
Definition channel_magnitude (stacked w : Tensor) (levels n c : nat) : R :=
  Rprod (map (fun l => rpow (level_magnitude stacked l n c) (data w [l])) (seq 0 levels)).
Definition channel_phase (stacked w : Tensor) (levels n c : nat) : R :=
  Rsum (map (fun l => level_phase stacked l n c * data w [l]) (seq 0 levels)).

(** One term that is NaN, stacked as a (1, 1, 1) tensor. *)
Definition nan_term : Extended.FTensor := Extended.mkFTensor [1; 1; 1]%nat (fun _ => NaN).

(** A batch of two identical 161 x 162 images. *)
Definition pair161 : Tensor := mkTensor [2; 1; 161; 162]%nat (fun _ => 0.5).

End Reference.

(* ===================================================================== *)
(** * Facts about the tensor operations *)
(* ===================================================================== *)

Module TorchFacts.

Import Torch Py.
Local Open Scope R_scope.

Lemma Rsum_nonneg (l : list R) : Forall (fun v => 0 <= v) l -> 0 <= Rsum l.
Proof.
  induction 1 as [|v l Hv _ IH]; simpl.
  - lra.
  - lra.
Qed.

Lemma Rprod_nonneg (l : list R) : Forall (fun v => 0 <= v) l -> 0 <= Rprod l.
Proof.
  induction 1 as [|v l Hv _ IH]; simpl.
  - lra.
  - now apply Rmult_le_pos.
Qed.

Lemma Rprod_zero (l : list R) : In 0 l -> Rprod l = 0.
Proof.
  induction l as [|v l IH]; simpl.
  - contradiction.
  - intros [-> | Hin].
    + ring.
    + rewrite (IH Hin). ring.
Qed.

Lemma Rmean_nonneg (l : list R) : Forall (fun v => 0 <= v) l -> 0 <= Rmean l.
Proof.
  intros Hl. unfold Rmean, Rdiv.
  destruct l as [|v l].
  - simpl. lra.
  - apply Rmult_le_pos.
    + now apply Rsum_nonneg.
    + left. apply Rinv_0_lt_compat. apply lt_0_INR. simpl. lia.
Qed.

Lemma relu_nonneg (v : R) : 0 <= Rmax 0 v.
Proof. apply Rmax_l. Qed.

Lemma rpow_nonneg_base (x w : R) : 0 <= x -> 0 <= rpow x w.
Proof.
  intros Hx. unfold rpow, fpow.
  destruct (Req_dec_T w 0); [lra|].
  destruct (Rlt_dec 0 x); [left; unfold Rpower; apply exp_pos|].
  destruct (Req_dec_T x 0); [destruct (Rlt_dec 0 w); lra | lra].
Qed.

Lemma rpow_zero_base (w : R) : w <> 0 -> rpow 0 w = 0.
Proof.
  intros Hw. unfold rpow, fpow.
  destruct (Req_dec_T w 0); [contradiction|].
  destruct (Rlt_dec 0 0); [lra|].
  destruct (Req_dec_T 0 0); [|lra].
  destruct (Rlt_dec 0 w); reflexivity.
Qed.

(** On clamped coordinates the phase lies in the first quadrant. *)
Lemma atan2_first_quadrant (y x : R) : 0 <= x -> 0 <= y -> 0 <= atan2 y x <= PI / 2.
Proof.
  intros Hx Hy. unfold atan2.
  assert (Hpi := PI_RGT_0).
  destruct (Rlt_dec 0 x) as [Hpos|Hnpos].
  - assert (Hq : 0 <= y / x).
    { unfold Rdiv. apply Rmult_le_pos; [assumption|].
      left. now apply Rinv_0_lt_compat. }
    split.
    + rewrite <- atan_0. destruct Hq as [Hq|Hq].
      * left. now apply atan_increasing.
      * rewrite <- Hq. lra.
    + left. apply atan_bound.
  - destruct (Rlt_dec x 0); [lra|].
    destruct (Rlt_dec 0 y); [lra|].
    destruct (Rlt_dec y 0); lra.
Qed.

Lemma axis_nonneg (rank : nat) (d : nat) : axis rank (Z.of_nat d) = d.
Proof.
  unfold axis.
  destruct (Z.ltb_spec (Z.of_nat d) 0); [lia|].
  apply Nat2Z.id.
Qed.

Lemma pool_extent_2 (h p : nat) :
  (p = h mod 2 \/ (p = 1 /\ h mod 2 = 0))%nat ->
  pool_extent 2 (h + p) = ((h + 1) / 2)%nat.
Proof.
  intros Hp. unfold pool_extent.
  assert (Hh := Nat.div_mod_eq h 2).
  assert (Hm : (h mod 2 < 2)%nat) by (apply Nat.mod_upper_bound; lia).
  assert (Hc : ((h + 1) / 2 = h / 2 + h mod 2)%nat).
  { symmetry. apply Nat.div_unique with (r := (1 - h mod 2)%nat); lia. }
  destruct (Nat.leb_spec 2 (h + p)) as [Hle|Hlt].
  - assert (Hq : ((h + p - 2) / 2 + 1 = (h + p) / 2)%nat).
    { replace (h + p)%nat with (h + p - 2 + 1 * 2)%nat at 2 by lia.
      rewrite Nat.div_add by lia. reflexivity. }
    rewrite Hq, Hc.
    symmetry. apply Nat.div_unique with (r := (h + p - 2 * (h / 2 + h mod 2))%nat); lia.
  - rewrite Hc. lia.
Qed.

End TorchFacts.

(* ===================================================================== *)
(** * Properties of the pyramid engines *)
(* ===================================================================== *)

Module Pyramid.

Import Torch Py MsSsim Reference TorchFacts.
Local Open Scope R_scope.

Lemma pad_replicate_shape (x : Tensor) (n c h w p : nat) :
  shape x = [n; c; h; w] ->
  shape (pad_replicate x (p, 0, p, 0)%nat) = [n; c; (h + p)%nat; (w + p)%nat].
Proof.
  intros Hx. unfold pad_replicate. rewrite Hx. simpl.
  now rewrite !Nat.add_0_r.
Qed.

Lemma pad_replicate_data (x : Tensor) (n c h w p i0 i1 i j : nat) :
  shape x = [n; c; h; w] -> (i < h + p)%nat -> (j < w + p)%nat ->
  data (pad_replicate x (p, 0, p, 0)%nat) [i0; i1; i; j]
  = data x [i0; i1; (i - p)%nat; (j - p)%nat].
Proof.
  intros Hx Hi Hj. unfold pad_replicate. rewrite Hx. simpl.
  rewrite !Nat.min_l by lia. reflexivity.
Qed.

Lemma avg_pool2d_shape (x : Tensor) (n c h w : nat) :
  shape x = [n; c; h; w] ->
  shape (avg_pool2d x 2) = [n; c; pool_extent 2 h; pool_extent 2 w].
Proof. intros Hx. unfold avg_pool2d. now rewrite Hx. Qed.

Lemma avg_pool2d_data (x : Tensor) (n c h w i0 i1 i j : nat) :
  shape x = [n; c; h; w] ->
  data (avg_pool2d x 2) [i0; i1; i; j]
  = (data x [i0; i1; (2 * i)%nat; (2 * j)%nat]
     + data x [i0; i1; (2 * i)%nat; (2 * j + 1)%nat]
     + data x [i0; i1; (2 * i + 1)%nat; (2 * j)%nat]
     + data x [i0; i1; (2 * i + 1)%nat; (2 * j + 1)%nat]) / 4.
Proof.
  intros Hx. unfold avg_pool2d. rewrite Hx.
  cbn [data seq map Rsum fold_right].
  replace (INR (2 * 2)) with 4 by (simpl; ring).
  rewrite !Nat.add_0_r. field.
Qed.

Lemma size_rank4 (x : Tensor) (n c h w : nat) :
  shape x = [n; c; h; w] ->
  size x 0 = n /\ size x 1 = c /\ size x 2 = h /\ size x 3 = w
  /\ size x (-1) = w /\ size x (-2) = h.
Proof. intros Hx. unfold size, dim. rewrite Hx. cbn. tauto. Qed.

Lemma padding_cases (h w : nat) :
  let p := Nat.max (h mod 2) (w mod 2) in
  ((p = h mod 2 \/ (p = 1 /\ h mod 2 = 0)) /\ (p = w mod 2 \/ (p = 1 /\ w mod 2 = 0)))%nat.
Proof.
  intros p. subst p.
  assert (Hh : (h mod 2 < 2)%nat) by (apply Nat.mod_upper_bound; lia).
  assert (Hw : (w mod 2 < 2)%nat) by (apply Nat.mod_upper_bound; lia).
  lia.
Qed.

Lemma downsample_eq (x y : Tensor) (n c h w : nat) :
  shape x = [n; c; h; w] ->
  let padding := Nat.max (h mod 2) (w mod 2) in
  downsample x y
  = (avg_pool2d (pad_replicate x (padding, 0, padding, 0)%nat) 2,
     avg_pool2d (pad_replicate y (padding, 0, padding, 0)%nat) 2).
Proof.
  intros Hx padding. unfold downsample.
  destruct (size_rank4 x n c h w Hx) as (_ & _ & -> & -> & _).
  reflexivity.
Qed.

Lemma downsample_shape (x y : Tensor) (n c h w : nat) :
  shape x = [n; c; h; w] -> shape y = [n; c; h; w] ->
  shape (fst (downsample x y)) = [n; c; ((h + 1) / 2)%nat; ((w + 1) / 2)%nat]
  /\ shape (snd (downsample x y)) = [n; c; ((h + 1) / 2)%nat; ((w + 1) / 2)%nat].
Proof.
  intros Hx Hy. rewrite (downsample_eq x y n c h w Hx). cbn [fst snd].
  destruct (padding_cases h w) as [Hph Hpw].
  rewrite (avg_pool2d_shape _ _ _ _ _ (pad_replicate_shape x _ _ _ _ _ Hx)).
  rewrite (avg_pool2d_shape _ _ _ _ _ (pad_replicate_shape y _ _ _ _ _ Hy)).
  rewrite (pool_extent_2 _ _ Hph), (pool_extent_2 _ _ Hpw). split; reflexivity.
Qed.

(** ** The size check *)

Lemma Qlt_bool_inject_Z (a b : Z) (q : Q) :
  (q == inject_Z b)%Q -> Qlt_bool (inject_Z a) q = (a <? b)%Z.
Proof.
  intros Hq. unfold Qlt_bool.
  destruct (Z.ltb_spec a b) as [Hlt|Hge].
  - apply negb_true_iff. apply not_true_is_false. intros Hle.
    apply Qle_bool_iff in Hle. rewrite Hq in Hle. rewrite <- Zle_Qle in Hle. lia.
  - apply negb_false_iff. apply Qle_bool_iff. rewrite Hq. rewrite <- Zle_Qle. lia.
Qed.

Lemma min_size_of_succ (kernel : Tensor) (l : nat) :
  (min_size_of kernel (S l)
   == inject_Z ((Z.of_nat (size kernel (-1)) - 1) * 2 ^ Z.of_nat l + 1))%Q.
Proof.
  unfold min_size_of.
  replace (Z.of_nat (S l) - 1)%Z with (Z.of_nat l) by lia.
  rewrite inject_Z_plus, inject_Z_mult.
  rewrite Zpower_Qpower by lia. reflexivity.
Qed.

Lemma size_check_spec (kernel : Tensor) (levels : nat) (a b : nat) :
  (1 <= levels)%nat ->
  Qlt_bool (inject_Z (Z.of_nat a)) (min_size_of kernel levels)
  || Qlt_bool (inject_Z (Z.of_nat b)) (min_size_of kernel levels)
  = ((Z.of_nat a <? min_side kernel levels)%Z || (Z.of_nat b <? min_side kernel levels)%Z).
Proof.
  intros Hl. destruct levels as [|l]; [lia|].
  unfold min_side. replace (Z.of_nat (S l) - 1)%Z with (Z.of_nat l) by lia.
  rewrite !(Qlt_bool_inject_Z _ _ _ (min_size_of_succ kernel l)). reflexivity.
Qed.

(** ** Stacking and combining the per-level terms *)

Lemma combine_shape_data (stacked w : Tensor) (N C : nat) :
  shape stacked = [size w 0; N; C] ->
  shape (combine stacked w) = [N]
  /\ forall n,
      data (combine stacked w) [n]
      = Rmean (map (fun c =>
                 Rprod (map (fun l => rpow (Rmax 0 (data stacked [l; n; c])) (data w [l]))
                            (seq 0 (size w 0))))
               (seq 0 C)).
Proof.
  intros Hs.
  unfold combine, mean, prod, reduce_dim, fibre, pow_tensor, broadcast2, relu, tmap,
    view_m1_1_1, dim.
  cbn [shape data]. rewrite Hs. cbn [List.length axis].
  cbn. change (Pos.to_nat 1) with 1%nat. cbn.
  split; [reflexivity|].
  intros n. f_equal. apply map_ext. intros c.
  unfold Rprod. f_equal. apply map_ext_in. intros l Hl.
  apply in_seq in Hl.
  destruct (Nat.eqb_spec (size w 0) 1) as [H1|H1]; [|reflexivity].
  replace l with 0%nat by lia. reflexivity.
Qed.

Lemma stack_dim0 (t0 : Tensor) (ts : list Tensor) (sh : list nat) :
  Forall (fun t => shape t = sh) (t0 :: ts) ->
  exists stacked,
    stack (t0 :: ts) 0 = inr stacked
    /\ shape stacked = List.length (t0 :: ts) :: sh
    /\ forall l idx, data stacked (l :: idx) = data (nth l (t0 :: ts) t0) idx.
Proof.
  intros Hsh. unfold stack.
  assert (Hall : forallb (fun t => shape_eqb (shape t) (shape t0)) (t0 :: ts) = true).
  { apply forallb_forall. intros t Ht.
    rewrite Forall_forall in Hsh.
    unfold shape_eqb. rewrite (Hsh t Ht), (Hsh t0 (or_introl eq_refl)).
    destruct (list_eq_dec Nat.eq_dec sh sh); [reflexivity | contradiction]. }
  rewrite Hall. eexists. split; [reflexivity|].
  cbn [shape data]. inversion Hsh as [|? ? H0 _]; subst.
  split; reflexivity.
Qed.

(** ** The real-path loop *)

Section RealPath.

Context {collaborators : Collaborators}.

Variables (data_range : R) (kernel : Tensor) (k1 k2 : R).

Lemma iteration_body_eq (iteration : nat) (s : Locals) :
  iteration_body data_range kernel k1 k2 iteration s
  = (let xy := if (0 <? iteration)%nat then downsample (loc_x s) (loc_y s)
               else (loc_x s, loc_y s) in
     bind (call (_ssim_per_channel (fst xy) (snd xy) kernel data_range k1 k2))
          (fun r => ret (mkLocals (fst xy) (snd xy) (loc_mcs s ++ [snd r]) (Some (fst r))))).
Proof.
  unfold iteration_body.
  destruct (if (0 <? iteration)%nat then _ else _) as [x' y']. cbn [fst snd].
  destruct (_ssim_per_channel x' y' kernel data_range k1 k2) as [e|[sv cs]]; reflexivity.
Qed.

(** The only exception the loop lets through is a collaborator's. *)
Lemma for_range_raises (iterations : list nat) (s : Locals) (e : exn) :
  for_range (iteration_body data_range kernel k1 k2) iterations s = inl e ->
  exists origin, e = Raised origin.
Proof.
  revert s. induction iterations as [|i rest IH]; intros s; cbn [for_range].
  - discriminate.
  - rewrite iteration_body_eq. cbv zeta.
    destruct (_ssim_per_channel _ _ kernel data_range k1 k2) as [o|r]; cbn.
    + intros [= <-]. now exists o.
    + apply IH.
Qed.

Lemma stack_raises (ts : list Tensor) (d : Z) (e : exn) :
  stack ts d = inl e -> e = RuntimeError.
Proof.
  unfold stack. destruct ts as [|t0 ts]; cbn.
  - now intros [= <-].
  - destruct (shape_eqb (shape t0) (shape t0) && _); cbn; [discriminate|].
    now intros [= <-].
Qed.

Lemma stack_terms_raises (mcs : list Tensor) (ssim_val : option Tensor) (e : exn) :
  stack_terms mcs ssim_val = inl e -> e = TypeError \/ e = RuntimeError.
Proof.
  unfold stack_terms. destruct ssim_val as [sv|].
  - intros H. right. now apply stack_raises in H.
  - intros [= <-]. now left.
Qed.

(** With the primitive answering [(ssim i, cs i)] on the images of level [i],
    the loop ends holding the coarsest images, every contrast term in order,
    and the SSIM value of the last level. *)
Lemma for_range_pyramid (x y : Tensor) (ssim cs : nat -> Tensor) :
  forall (k a : nat) (s : Locals),
    (loc_x s, loc_y s) = pyramid (pred a) x y ->
    (forall i, (a <= i < a + k)%nat ->
       _ssim_per_channel (fst (pyramid i x y)) (snd (pyramid i x y)) kernel data_range k1 k2
       = inr (ssim i, cs i)) ->
    for_range (iteration_body data_range kernel k1 k2) (seq a k) s
    = inr (mkLocals (fst (pyramid (pred (a + k)) x y)) (snd (pyramid (pred (a + k)) x y))
             (loc_mcs s ++ map cs (seq a k))
             (match k with
              | O => loc_ssim_val s
              | S _ => Some (ssim (pred (a + k)))
              end)).
Proof.
  induction k as [|k IH]; intros a s Hs Hprim.
  - cbn [seq for_range map]. rewrite Nat.add_0_r, <- Hs, app_nil_r.
    destruct s; reflexivity.
  - cbn [seq for_range]. rewrite iteration_body_eq. cbv zeta.
    assert (Hxy : (if (0 <? a)%nat then downsample (loc_x s) (loc_y s)
                   else (loc_x s, loc_y s)) = pyramid a x y).
    { destruct a as [|a'].
      - exact Hs.
      - cbn [Nat.ltb Nat.leb pyramid]. cbn [pred] in Hs. now rewrite <- Hs. }
    rewrite Hxy, (Hprim a) by lia. cbn [call bind ret fst snd].
    rewrite IH.
    + cbn [loc_mcs loc_ssim_val map].
      replace (S a + k)%nat with (a + S k)%nat by lia.
      rewrite <- app_assoc. cbn [app].
      destruct k; [|reflexivity].
      now replace (pred (a + 1)) with a by lia.
    + cbn [loc_x loc_y pred]. now destruct (pyramid a x y).
    + intros i Hi. apply Hprim. lia.
Qed.

(** What [_multi_scale_ssim] returned, when it returned. *)
Lemma _multi_scale_ssim_returns (x y scale_weights_tensor v : Tensor) :
  _multi_scale_ssim x y data_range kernel scale_weights_tensor k1 k2 = inr v ->
  exists stacked, v = combine stacked scale_weights_tensor.
Proof.
  unfold _multi_scale_ssim. cbv zeta.
  destruct (_ || _); [discriminate|].
  destruct (for_range _ _ _) as [e|s]; [discriminate|]. cbn [bind].
  destruct (stack_terms _ _) as [e|stacked]; [discriminate|]. cbn [bind ret].
  intros [= <-]. now exists stacked.
Qed.

Lemma spec_clamp_relu (v : R) : spec_clamp v = Rmax 0 v.
Proof.
  unfold spec_clamp, Rmax.
  destruct (Rlt_dec v 0), (Rle_dec 0 v); lra.
Qed.

(** [mcs[:-1] + [ssim_val]] after the loop: contrast terms, then the SSIM value
    of the last level. *)
Lemma collected_terms (ssim cs : nat -> Tensor) (m : nat) :
  removelast (map cs (seq 0 (S m))) ++ [ssim m] = map cs (seq 0 m) ++ [ssim m].
Proof.
  rewrite seq_S, map_app. cbn [map Nat.add]. now rewrite removelast_last.
Qed.

Lemma collected_terms_nth (ssim cs : nat -> Tensor) (m l : nat) (d : Tensor) :
  (l < S m)%nat ->
  nth l (map cs (seq 0 m) ++ [ssim m]) d = spec_term (S m) cs ssim l.
Proof.
  intros Hl. unfold spec_term. replace (S m - 1)%nat with m by lia.
  destruct (Nat.eqb_spec l m) as [->|Hne].
  - rewrite app_nth2; rewrite length_map, length_seq; [|lia].
    now rewrite Nat.sub_diag.
  - rewrite app_nth1 by (rewrite length_map, length_seq; lia).
    rewrite (nth_indep _ d (cs 0%nat)) by (rewrite length_map, length_seq; lia).
    rewrite map_nth, seq_nth by lia. reflexivity.
Qed.

(** On a valid pair, with the primitive answering at every level, the engine
    returns the combination of the stacked terms: contrast terms first, the
    SSIM value of the last level in the last position. *)
Lemma real_path_run
      (x y scale_weights_tensor : Tensor) (levels N C H W : nat)
      (ssim cs : nat -> Tensor) :
  shape x = [N; C; H; W] ->
  shape scale_weights_tensor = [levels] -> (1 <= levels)%nat ->
  (min_side kernel levels <= Z.of_nat H)%Z ->
  (min_side kernel levels <= Z.of_nat W)%Z ->
  (forall i, (i < levels)%nat ->
     _ssim_per_channel (fst (pyramid i x y)) (snd (pyramid i x y)) kernel data_range k1 k2
     = inr (ssim i, cs i)) ->
  (forall i, (i < levels)%nat -> shape (ssim i) = [N; C] /\ shape (cs i) = [N; C]) ->
  exists stacked,
    _multi_scale_ssim x y data_range kernel scale_weights_tensor k1 k2
    = inr (combine stacked scale_weights_tensor)
    /\ shape stacked = [size scale_weights_tensor 0; N; C]
    /\ forall l idx, (l < levels)%nat ->
         data stacked (l :: idx) = data (spec_term levels cs ssim l) idx.
Proof.
  intros Hx Hw Hlev HH HW Hprim Hshape.
  assert (Hsize : size scale_weights_tensor 0 = levels).
  { unfold size, dim. now rewrite Hw. }
  destruct (size_rank4 x N C H W Hx) as (_ & _ & _ & _ & Hw1 & Hh1).
  unfold _multi_scale_ssim. cbv zeta. rewrite Hsize, Hw1, Hh1.
  rewrite size_check_spec by assumption.
  destruct (Z.ltb_spec (Z.of_nat W) (min_side kernel levels)); [lia|].
  destruct (Z.ltb_spec (Z.of_nat H) (min_side kernel levels)); [lia|].
  cbn [orb].
  rewrite (for_range_pyramid x y ssim cs levels 0 (mkLocals x y [] None)) by
    (try reflexivity; intros i Hi; apply Hprim; lia).
  cbn [bind loc_mcs loc_ssim_val app Nat.add].
  destruct levels as [|m]; [lia|]. cbn [pred stack_terms].
  rewrite collected_terms.
  assert (Hall : Forall (fun t => shape t = [N; C]) (map cs (seq 0 m) ++ [ssim m])).
  { apply Forall_app. split.
    - apply Forall_forall. intros t Ht. apply in_map_iff in Ht.
      destruct Ht as (i & <- & Hi). apply in_seq in Hi. apply Hshape. lia.
    - constructor; [|constructor]. apply Hshape. lia. }
  destruct (map cs (seq 0 m) ++ [ssim m]) as [|t0 ts] eqn:Hterms.
  { destruct (map cs (seq 0 m)); discriminate. }
  destruct (stack_dim0 t0 ts [N; C] Hall) as (stacked & Hst & Hsh & Hdata).
  rewrite Hst. cbn [bind ret].
  assert (Hlen : List.length (t0 :: ts) = S m).
  { rewrite <- Hterms, length_app, length_map, length_seq. cbn. lia. }
  rewrite Hlen in Hsh.
  exists stacked. split; [reflexivity|]. split; [exact Hsh|].
  intros l idx Hl. rewrite Hdata, <- Hterms.
  now rewrite collected_terms_nth by lia.
Qed.

(** C1. On a valid pair of (N, C, H, W) images, whenever the SSIM primitive
    answers with (N, C) terms at every pyramid level, [_multi_scale_ssim]
    returns one score per batch item, and that score is the combination the
    specification describes: the contrast terms of levels 0..levels-2 and the
    SSIM value of level levels-1, each clamped at zero, raised to its scale
    weight, multiplied across levels and averaged over the channels. *)
Theorem real_path_is_spec_combination
        (x y scale_weights_tensor : Tensor) (levels N C H W : nat)
        (ssim cs : nat -> Tensor) :
  shape x = [N; C; H; W] -> shape y = [N; C; H; W] ->
  shape scale_weights_tensor = [levels] -> (1 <= levels)%nat ->
  (min_side kernel levels <= Z.of_nat H)%Z ->
  (min_side kernel levels <= Z.of_nat W)%Z ->
  (forall i, (i < levels)%nat ->
     _ssim_per_channel (fst (pyramid i x y)) (snd (pyramid i x y)) kernel data_range k1 k2
     = inr (ssim i, cs i)) ->
  (forall i, (i < levels)%nat -> shape (ssim i) = [N; C] /\ shape (cs i) = [N; C]) ->
  exists msssim_val,
    _multi_scale_ssim x y data_range kernel scale_weights_tensor k1 k2 = inr msssim_val
    /\ shape msssim_val = [N]
    /\ forall n, (n < N)%nat ->
         data msssim_val [n]
         = spec_combination levels C (fun i => data scale_weights_tensor [i])
                            (spec_term levels cs ssim) n.
Proof.
  intros Hx _ Hw Hlev HH HW Hprim Hshape.
  destruct (real_path_run x y scale_weights_tensor levels N C H W ssim cs
              Hx Hw Hlev HH HW Hprim Hshape) as (stacked & Hrun & Hsh & Hdata).
  assert (Hsize : size scale_weights_tensor 0 = levels).
  { unfold size, dim. now rewrite Hw. }
  destruct (combine_shape_data stacked scale_weights_tensor N C Hsh) as [Hcs Hcd].
  exists (combine stacked scale_weights_tensor).
  split; [exact Hrun|]. split; [exact Hcs|].
  intros n Hn. rewrite Hcd, Hsize.
  unfold spec_combination, Rmean. rewrite length_map, length_seq.
  f_equal. f_equal. apply map_ext. intros c.
  f_equal. apply map_ext_in. intros l Hl. apply in_seq in Hl.
  rewrite Hdata by lia. now rewrite spec_clamp_relu.
Qed.

(** C2 (amended). At every level after the first, the loop body replaces both
    images by [avg_pool2d (pad ...)]: padding of max(H mod 2, W mod 2) rows on
    top and columns on the left (read off [x], applied to both), each copying
    the first row or column; then a 2x2 average with stride 2.  The padded
    sides are both even when H and W have the same parity, and the pooled
    image is ceil(H/2) x ceil(W/2) in every case. *)
Theorem level_downsampling (x y : Tensor) (n c h w : nat) :
  shape x = [n; c; h; w] -> shape y = [n; c; h; w] ->
  let padding := Nat.max (h mod 2) (w mod 2) in
  let xp := pad_replicate x (padding, 0, padding, 0)%nat in
  let yp := pad_replicate y (padding, 0, padding, 0)%nat in
  (forall iteration mcs ssim_val, (0 < iteration)%nat ->
     iteration_body data_range kernel k1 k2 iteration (mkLocals x y mcs ssim_val)
     = bind (call (_ssim_per_channel (avg_pool2d xp 2) (avg_pool2d yp 2)
                                     kernel data_range k1 k2))
            (fun r => ret (mkLocals (avg_pool2d xp 2) (avg_pool2d yp 2)
                                    (mcs ++ [snd r]) (Some (fst r)))))
  /\ shape xp = [n; c; (h + padding)%nat; (w + padding)%nat]
  /\ shape yp = [n; c; (h + padding)%nat; (w + padding)%nat]
  /\ (forall i0 i1 i j, (i < h + padding)%nat -> (j < w + padding)%nat ->
        data xp [i0; i1; i; j] = data x [i0; i1; (i - padding)%nat; (j - padding)%nat]
        /\ data yp [i0; i1; i; j] = data y [i0; i1; (i - padding)%nat; (j - padding)%nat])
  /\ (h mod 2 = w mod 2 -> Nat.Even (h + padding) /\ Nat.Even (w + padding))
  /\ shape (avg_pool2d xp 2) = [n; c; ((h + 1) / 2)%nat; ((w + 1) / 2)%nat]
  /\ shape (avg_pool2d yp 2) = [n; c; ((h + 1) / 2)%nat; ((w + 1) / 2)%nat]
  /\ (forall i0 i1 i j,
        data (avg_pool2d xp 2) [i0; i1; i; j]
        = (data xp [i0; i1; (2 * i)%nat; (2 * j)%nat]
           + data xp [i0; i1; (2 * i)%nat; (2 * j + 1)%nat]
           + data xp [i0; i1; (2 * i + 1)%nat; (2 * j)%nat]
           + data xp [i0; i1; (2 * i + 1)%nat; (2 * j + 1)%nat]) / 4
        /\ data (avg_pool2d yp 2) [i0; i1; i; j]
           = (data yp [i0; i1; (2 * i)%nat; (2 * j)%nat]
              + data yp [i0; i1; (2 * i)%nat; (2 * j + 1)%nat]
              + data yp [i0; i1; (2 * i + 1)%nat; (2 * j)%nat]
              + data yp [i0; i1; (2 * i + 1)%nat; (2 * j + 1)%nat]) / 4).
Proof.
  intros Hx Hy padding xp yp.
  assert (Hxp := pad_replicate_shape x n c h w padding Hx).
  assert (Hyp := pad_replicate_shape y n c h w padding Hy).
  destruct (downsample_shape x y n c h w Hx Hy) as [Hdx Hdy].
  rewrite (downsample_eq x y n c h w Hx) in Hdx, Hdy. cbn [fst snd] in Hdx, Hdy.
  repeat split.
  - intros iteration mcs ssim_val Hpos. rewrite iteration_body_eq. cbv zeta.
    cbn [loc_x loc_y loc_mcs].
    destruct (Nat.ltb_spec 0 iteration) as [_|Hle]; [|lia].
    rewrite (downsample_eq x y n c h w Hx). reflexivity.
  - exact Hxp.
  - exact Hyp.
  - now apply (pad_replicate_data x n c h w).
  - now apply (pad_replicate_data y n c h w).
  - subst padding. rewrite H, Nat.max_id, <- H.
    exists (h / 2 + h mod 2)%nat. pose proof (Nat.div_mod_eq h 2). lia.
  - subst padding. rewrite H, Nat.max_id.
    exists (w / 2 + w mod 2)%nat. pose proof (Nat.div_mod_eq w 2). lia.
  - exact Hdx.
  - exact Hdy.
  - apply (avg_pool2d_data xp _ _ _ _ _ _ _ _ Hxp).
  - apply (avg_pool2d_data yp _ _ _ _ _ _ _ _ Hyp).
Qed.

(** C3. With the five default scale weights, [_multi_scale_ssim] raises the
    [ValueError] of its size check exactly when the width or the height of [x]
    is below [(kernel side - 1) * 16 + 1]. *)
Theorem default_levels_size_check (x y : Tensor) :
  let bound := ((Z.of_nat (size kernel (-1)) - 1) * 16 + 1)%Z in
  (exists m, _multi_scale_ssim x y data_range kernel default_weights k1 k2
             = inl (ValueError m))
  <-> (Z.of_nat (size x (-1)) < bound \/ Z.of_nat (size x (-2)) < bound)%Z.
Proof.
  intros bound. unfold _multi_scale_ssim. cbv zeta.
  change (size default_weights 0) with 5%nat.
  rewrite size_check_spec by lia.
  change (min_side kernel 5) with bound.
  destruct (Z.ltb_spec (Z.of_nat (size x (-1))) bound) as [Hw|Hw];
    destruct (Z.ltb_spec (Z.of_nat (size x (-2))) bound) as [Hh|Hh]; cbn [orb raise];
    try (split; [intros _; lia | intros _; eexists; reflexivity]).
  split; [|lia].
  intros [m Hm]. exfalso.
  destruct (for_range _ _ _) as [e|s] eqn:Hloop; cbn [bind] in Hm.
  - apply for_range_raises in Hloop. destruct Hloop as [o ->]. discriminate.
  - destruct (stack_terms _ _) as [e|stacked] eqn:Hstack; cbn [bind ret] in Hm.
    + apply stack_terms_raises in Hstack. destruct Hstack as [-> | ->]; discriminate.
    + discriminate.
Qed.

End RealPath.

(** ** Runs on the sample inputs *)

Lemma pyramid_shape (x y : Tensor) (N C H W : nat) :
  shape x = [N; C; H; W] -> shape y = [N; C; H; W] ->
  forall i, exists h w,
    shape (fst (pyramid i x y)) = [N; C; h; w] /\ shape (snd (pyramid i x y)) = [N; C; h; w].
Proof.
  intros Hx Hy. induction i as [|i (h & w & Hfx & Hfy)].
  - exists H, W. now split.
  - cbn [pyramid]. eexists _, _. exact (downsample_shape _ _ N C h w Hfx Hfy).
Qed.

(** The stand-in primitive answers with (N, C) terms at every level. *)
Lemma sample_real_path_run
      (x y kernel scale_weights_tensor : Tensor) (data_range k1 k2 : R)
      (levels N C H W : nat) :
  shape x = [N; C; H; W] -> shape y = [N; C; H; W] ->
  shape scale_weights_tensor = [levels] -> (1 <= levels)%nat ->
  (min_side kernel levels <= Z.of_nat H)%Z ->
  (min_side kernel levels <= Z.of_nat W)%Z ->
  exists stacked,
    _multi_scale_ssim x y data_range kernel scale_weights_tensor k1 k2
    = inr (combine stacked scale_weights_tensor).
Proof.
  intros Hx Hy Hw Hlev HH HW.
  destruct (real_path_run data_range kernel k1 k2 x y scale_weights_tensor levels N C H W
              (fun i => fst (sample_terms (fst (pyramid i x y)) (snd (pyramid i x y))))
              (fun i => snd (sample_terms (fst (pyramid i x y)) (snd (pyramid i x y)))))
    as (stacked & Hrun & _); try assumption.
  - intros i _. reflexivity.
  - intros i _. destruct (pyramid_shape x y N C H W Hx Hy i) as (h & w & Hfx & _).
    destruct (size_rank4 _ N C h w Hfx) as (H0 & H1 & _).
    cbn [sample_terms fst snd shape]. rewrite H0, H1. now split.
  - now exists stacked.
Qed.


Lemma default_weights_positive (i : nat) :
  (i < size default_weights 0)%nat -> 0 < data default_weights [i].
Proof.
  change (size default_weights 0) with 5%nat. intros Hi.
  do 5 (destruct i as [|i]; [cbn; lra|]). lia.
Qed.

Lemma sample_terms_shapes (i : nat) :
  (i < 5)%nat -> shape (sample_ssim i) = [1; 1]%nat /\ shape (sample_cs i) = [1; 1]%nat.
Proof.
  intros Hi.
  do 5 (destruct i as [|i]; [split; vm_compute; reflexivity|]). lia.
Qed.

Lemma real_path_is_spec_combination_witness :
  exists msssim_val,
    _multi_scale_ssim x161 y161 1 sample_kernel default_weights 0.01 0.03 = inr msssim_val
    /\ shape msssim_val = [1%nat]
    /\ forall n, (n < 1)%nat ->
         data msssim_val [n]
         = spec_combination 5 1 (fun i => data default_weights [i])
                            (spec_term 5 sample_cs sample_ssim) n.
Proof.
  apply (real_path_is_spec_combination 1 sample_kernel 0.01 0.03
           x161 y161 default_weights 5 1 1 161 162 sample_ssim sample_cs).
  - reflexivity.
  - reflexivity.
  - reflexivity.
  - lia.
  - vm_compute. discriminate.
  - vm_compute. discriminate.
  - intros i _. reflexivity.
  - exact sample_terms_shapes.
Defined.

Lemma sample_run :
  exists stacked,
    _multi_scale_ssim x161 y161 1 sample_kernel default_weights 0.01 0.03
    = inr (combine stacked default_weights).
Proof.
  destruct (real_path_run 1 sample_kernel 0.01 0.03
              x161 y161 default_weights 5 1 1 161 162 sample_ssim sample_cs)
    as (stacked & Hrun & _).
  - reflexivity.
  - reflexivity.
  - lia.
  - vm_compute. discriminate.
  - vm_compute. discriminate.
  - intros i _. reflexivity.
  - exact sample_terms_shapes.
  - now exists stacked.
Qed.

(** C2 as stated fails on a 161 x 162 image, which the size check of the
    default configuration accepts: one row and one column of padding make the
    height 162 and the width 163, so the width is odd when pooling starts. *)
Lemma padding_leaves_odd_width :
  let padding := Nat.max (size x161 2 mod 2) (size x161 3 mod 2) in
  let xp := pad_replicate x161 (padding, 0, padding, 0)%nat in
  (min_side sample_kernel 5 <= Z.of_nat (size x161 (-1)))%Z
  /\ (min_side sample_kernel 5 <= Z.of_nat (size x161 (-2)))%Z
  /\ ~ (Nat.Even (size xp 2) /\ Nat.Even (size xp 3)).
Proof.
  cbv zeta. repeat split.
  - vm_compute. discriminate.
  - vm_compute. discriminate.
  - intros [_ Hodd].
    change (size (pad_replicate x161 _) 3) with 163%nat in Hodd.
    destruct Hodd as [m Hm]. lia.
Qed.

Lemma level_downsampling_witness :
  shape (avg_pool2d (pad_replicate x161 (1, 0, 1, 0)%nat) 2) = [1; 1; 81; 81]%nat
  /\ shape (avg_pool2d (pad_replicate y161 (1, 0, 1, 0)%nat) 2) = [1; 1; 81; 81]%nat.
Proof.
  destruct (level_downsampling 1 sample_kernel 0.01 0.03 x161 y161 1 1 161 162
              eq_refl eq_refl) as (_ & _ & _ & _ & _ & Hx & Hy & _).
  split; [exact Hx | exact Hy].
Defined.

Lemma default_levels_size_check_witness :
  exists m, _multi_scale_ssim x160 x160 1 sample_kernel default_weights 0.01 0.03
            = inl (ValueError m).
Proof.
  apply (proj2 (default_levels_size_check 1 sample_kernel 0.01 0.03 x160 x160)).
  right. vm_compute. reflexivity.
Defined.

End Pyramid.

(* ===================================================================== *)
(** * Properties of the complex combination *)
(* ===================================================================== *)

Module ComplexPath.

Import Torch Py MsSsim Reference TorchFacts.
Local Open Scope R_scope.

Lemma complex_abs_data (m : Tensor) (idx : list nat) :
  data (complex_abs m) idx = sqrt (data m (idx ++ [0%nat]) ^ 2 + data m (idx ++ [1%nat]) ^ 2).
Proof. reflexivity. Qed.

Lemma complex_deg_data (m : Tensor) (idx : list nat) :
  data (complex_deg m) idx = atan2 (data m (idx ++ [1%nat])) (data m (idx ++ [0%nat])).
Proof. reflexivity. Qed.

Lemma complex_val_abs_data (m w : Tensor) (L N C n c : nat) :
  shape m = [L; N; C; 2%nat] -> size w 0 = L ->
  data (complex_val_abs m w) [n; c]
  = Rprod (map (fun l => rpow (data (complex_abs m) [l; n; c]) (data w [l])) (seq 0 L)).
Proof.
  intros Hm Hw.
  unfold complex_val_abs, prod, reduce_dim, fibre, pow_tensor, broadcast2, view_m1_1_1,
    dim, bcast_index, insert_at.
  cbn [shape data complex_abs tsqrt tadd pow2 tmap tmap2 select_last].
  rewrite Hm, Hw. cbn [removelast List.length axis Z.ltb Z.compare Z.to_nat nth].
  cbn [firstn skipn app List.combine].
  unfold Rprod. f_equal. apply map_ext_in. intros l Hl. apply in_seq in Hl.
  cbn [map fst snd hd].
  destruct (Nat.eqb_spec L 1) as [H1|H1]; [|reflexivity].
  replace l with 0%nat by lia. reflexivity.
Qed.

(** What [_multi_scale_ssim_complex] returned, when it returned: the complex
    combination of the terms it stacked. *)
Lemma _multi_scale_ssim_complex_returns
      {collaborators : Collaborators}
      (x y : Tensor) (data_range : R) (kernel scale_weights_tensor : Tensor) (k1 k2 : R)
      (v : Tensor) :
  _multi_scale_ssim_complex x y data_range kernel scale_weights_tensor k1 k2 = inr v ->
  exists stacked, combine_complex stacked scale_weights_tensor = inr v.
Proof.
  unfold _multi_scale_ssim_complex. cbv zeta.
  destruct (_ || _); [discriminate|].
  destruct (for_range _ _ _) as [e|s]; [discriminate|]. cbn [bind].
  destruct (stack_terms _ _) as [e|stacked]; [discriminate|]. cbn [bind].
  intros Hv. now exists stacked.
Qed.

End ComplexPath.

(* ===================================================================== *)
(** * Properties of the public function and of the loss *)
(* ===================================================================== *)

Module Metric.

Import Torch Py MsSsim Reference TorchFacts Pyramid.
Local Open Scope R_scope.
Local Open Scope string_scope.

Section PublicFunction.

Context {collaborators : Collaborators}.

(** The reduction is the last step: every call is the unreduced call followed
    by the dispatch on [reduction]. *)
Lemma multi_scale_ssim_reduction
      (x y : Tensor) (kernel_size : Z) (kernel_sigma data_range : R) (reduction : string)
      (scale_weights : option (list R + Tensor)) (k1 k2 : R) :
  multi_scale_ssim x y kernel_size kernel_sigma data_range reduction scale_weights k1 k2
  = bind (multi_scale_ssim x y kernel_size kernel_sigma data_range "none" scale_weights k1 k2)
         (fun msssim_val =>
            if String.eqb reduction "none" then ret msssim_val
            else bind (dict_get [("mean", mean); ("sum", sum)] reduction)
                      (fun f => ret (f msssim_val 0%Z))).
Proof.
  unfold multi_scale_ssim.
  destruct (call (_validate_input x y true kernel_size scale_weights data_range))
    as [e|u]; [reflexivity|]. cbn [bind].
  destruct (call (_adjust_dimensions x y)) as [e|[x' y']]; [reflexivity|]. cbn [bind].
  destruct (call (gaussian_filter kernel_size kernel_sigma)) as [e|g]; [reflexivity|].
  cbn [bind]. cbv zeta.
  match goal with
  | |- bind ?core _ = _ => destruct core as [e|v]; reflexivity
  end.
Qed.

Lemma dict_get_missing (reduction : string) :
  reduction <> "mean" -> reduction <> "sum" ->
  dict_get [("mean", mean); ("sum", sum)] reduction = inl (KeyError reduction).
Proof.
  intros Hm Hs. unfold dict_get. cbn [find fst].
  destruct (String.eqb_spec "mean" reduction) as [E|_]; [now symmetry in E|].
  destruct (String.eqb_spec "sum" reduction) as [E|_]; [now symmetry in E|].
  reflexivity.
Qed.

Lemma reduce_dim0_data (f : list R -> R) (v : Tensor) (idx : list nat) :
  data (reduce_dim f v 0) idx = f (map (fun n => data v (n :: idx)) (seq 0 (size v 0))).
Proof. reflexivity. Qed.

(** C5. With reduction ['mean'] the call returns the arithmetic mean over the
    batch axis of what it returns with ['none'], and with ['sum'] their sum. *)
Theorem reduction_mean_sum
        (x y : Tensor) (kernel_size : Z) (kernel_sigma data_range : R)
        (scale_weights : option (list R + Tensor)) (k1 k2 : R) (per_item : Tensor) :
  multi_scale_ssim x y kernel_size kernel_sigma data_range "none" scale_weights k1 k2
  = inr per_item ->
  exists by_mean by_sum,
    multi_scale_ssim x y kernel_size kernel_sigma data_range "mean" scale_weights k1 k2
    = inr by_mean
    /\ multi_scale_ssim x y kernel_size kernel_sigma data_range "sum" scale_weights k1 k2
       = inr by_sum
    /\ shape by_mean = tl (shape per_item)
    /\ shape by_sum = tl (shape per_item)
    /\ forall idx,
         data by_sum idx
         = Rsum (map (fun n => data per_item (n :: idx)) (seq 0 (size per_item 0)))
         /\ data by_mean idx
            = Rsum (map (fun n => data per_item (n :: idx)) (seq 0 (size per_item 0)))
              / INR (size per_item 0).
Proof.
  intros Hnone.
  exists (mean per_item 0), (sum per_item 0).
  rewrite (multi_scale_ssim_reduction x y kernel_size kernel_sigma data_range "mean").
  rewrite (multi_scale_ssim_reduction x y kernel_size kernel_sigma data_range "sum").
  rewrite Hnone.
  split; [reflexivity|]. split; [reflexivity|].
  split; [reflexivity|]. split; [reflexivity|].
  intros idx. split.
  - apply reduce_dim0_data.
  - unfold mean. rewrite reduce_dim0_data. unfold Rmean.
    now rewrite length_map, length_seq.
Qed.

(** C8 (amended). A reduction other than ['none'], ['mean'] and ['sum'] is
    not checked beforehand: once the score has been computed, the lookup in
    the dispatch table raises [KeyError]. *)
Theorem unknown_reduction_is_key_error
        (x y : Tensor) (kernel_size : Z) (kernel_sigma data_range : R) (reduction : string)
        (scale_weights : option (list R + Tensor)) (k1 k2 : R) (per_item : Tensor) :
  reduction <> "none" -> reduction <> "mean" -> reduction <> "sum" ->
  multi_scale_ssim x y kernel_size kernel_sigma data_range "none" scale_weights k1 k2
  = inr per_item ->
  multi_scale_ssim x y kernel_size kernel_sigma data_range reduction scale_weights k1 k2
  = inl (KeyError reduction).
Proof.
  intros Hn Hm Hs Hnone.
  rewrite multi_scale_ssim_reduction, Hnone. cbn [bind].
  destruct (String.eqb_spec reduction "none") as [E|_]; [contradiction|].
  now rewrite dict_get_missing.
Qed.

End PublicFunction.

(** ** Runs on the sample inputs *)

Lemma sample_metric_run (scale_weights : option (list R + Tensor)) :
  as_tensor (match scale_weights with
             | None => inl scale_weights_from_ms_ssim_paper
             | Some w => w
             end) = default_weights ->
  exists stacked,
    multi_scale_ssim x161 y161 11 1.5 1 "none" scale_weights 0.01 0.03
    = inr (combine stacked default_weights).
Proof.
  intros Hw. unfold multi_scale_ssim.
  cbn [_validate_input _adjust_dimensions gaussian_filter sample_collaborators call bind].
  cbv zeta. rewrite Hw.
  change (dim (div_scalar x161 1) =? 5)%nat with false. cbv iota.
  match goal with
  | |- exists _, bind (_multi_scale_ssim ?x ?y ?d ?k ?w ?a ?b) _ = _ =>
      destruct (sample_real_path_run x y k w d a b 5 1 1 161 162) as [stacked Hrun]
  end.
  - reflexivity.
  - reflexivity.
  - reflexivity.
  - lia.
  - vm_compute. discriminate.
  - vm_compute. discriminate.
  - rewrite Hrun. now exists stacked.
Qed.

Lemma reduction_mean_sum_witness :
  exists per_item by_mean by_sum,
    multi_scale_ssim x161 y161 11 1.5 1 "none" None 0.01 0.03 = inr per_item
    /\ multi_scale_ssim x161 y161 11 1.5 1 "mean" None 0.01 0.03 = inr by_mean
    /\ multi_scale_ssim x161 y161 11 1.5 1 "sum" None 0.01 0.03 = inr by_sum
    /\ data by_sum [] = Rsum (map (fun n => data per_item [n]) (seq 0 (size per_item 0)))
    /\ data by_mean [] = data by_sum [] / INR (size per_item 0).
Proof.
  destruct (sample_metric_run None eq_refl) as [stacked Hrun].
  destruct (reduction_mean_sum x161 y161 11 1.5 1 None 0.01 0.03 _ Hrun)
    as (by_mean & by_sum & Hmean & Hsum & _ & _ & Hdata).
  exists (combine stacked default_weights), by_mean, by_sum.
  destruct (Hdata []) as [Hs Hm].
  repeat split; try assumption. now rewrite Hm, Hs.
Defined.

(** C8 as stated fails: with the unknown reduction ['max'] the call on the
    sample pair computes the score and then raises [KeyError], not the
    [ValueError] of an input check. *)
Lemma unknown_reduction_not_value_error :
  multi_scale_ssim x161 y161 11 1.5 1 "max" None 0.01 0.03 = inl (KeyError "max")
  /\ ~ (exists m, multi_scale_ssim x161 y161 11 1.5 1 "max" None 0.01 0.03
                  = inl (ValueError m)).
Proof.
  destruct (sample_metric_run None eq_refl) as [stacked Hrun].
  assert (Hmax : multi_scale_ssim x161 y161 11 1.5 1 "max" None 0.01 0.03
                 = inl (KeyError "max")).
  { rewrite multi_scale_ssim_reduction, Hrun. reflexivity. }
  split; [exact Hmax|].
  intros [m Hm]. rewrite Hmax in Hm. discriminate.
Qed.

Lemma unknown_reduction_is_key_error_witness :
  multi_scale_ssim x161 y161 11 1.5 1 "median" None 0.01 0.03 = inl (KeyError "median").
Proof.
  destruct (sample_metric_run None eq_refl) as [stacked Hrun].
  apply (unknown_reduction_is_key_error x161 y161 11 1.5 1 "median" None 0.01 0.03
           (combine stacked default_weights)).
  - discriminate.
  - discriminate.
  - discriminate.
  - exact Hrun.
Defined.

End Metric.

(* ===================================================================== *)
(** * Further properties: sizes along the pyramid *)
(* ===================================================================== *)

Module PyramidSizes.

Import Torch Py MsSsim Reference TorchFacts Pyramid.
Local Open Scope R_scope.

(** ** Arithmetic of the level sides *)

Lemma level_side_0 (h : nat) : level_side h 0 = h.
Proof.
  unfold level_side. cbn [Nat.pow]. rewrite Nat.div_1_r. lia.
Qed.

Lemma pow2_pos (i : nat) : (0 < 2 ^ i)%nat.
Proof. induction i; cbn [Nat.pow]; lia. Qed.

Lemma level_side_succ (h i : nat) : level_side h (S i) = ((level_side h i + 1) / 2)%nat.
Proof.
  unfold level_side. pose proof (pow2_pos i) as Hp.
  replace ((h + 2 ^ i - 1) / 2 ^ i + 1)%nat with ((h + 2 ^ i - 1 + 1 * 2 ^ i) / 2 ^ i)%nat
    by (rewrite Nat.div_add by lia; reflexivity).
  rewrite Nat.Div0.div_div.
  cbn [Nat.pow].
  f_equal; lia.
Qed.

Lemma level_side_lower (k h i : nat) :
  ((k - 1) * 2 ^ i + 1 <= h)%nat -> (k <= level_side h i)%nat.
Proof.
  intros Hh. unfold level_side. pose proof (pow2_pos i) as Hp.
  apply Nat.div_le_lower_bound; [lia|].
  destruct k as [|k]; [lia|].
  replace (S k - 1)%nat with k in Hh by lia. nia.
Qed.

Lemma level_side_exact (k i : nat) : level_side (k * 2 ^ i) i = k.
Proof.
  unfold level_side. pose proof (pow2_pos i) as Hp.
  symmetry. apply Nat.div_unique with (r := (2 ^ i - 1)%nat); lia.
Qed.

Lemma min_side_nat (kernel : Tensor) (levels k : nat) :
  size kernel (-1) = k -> (1 <= k)%nat -> (1 <= levels)%nat ->
  min_side kernel levels = Z.of_nat ((k - 1) * 2 ^ (levels - 1) + 1).
Proof.
  intros Hk Hk1 Hl. unfold min_side. rewrite Hk.
  rewrite Nat2Z.inj_add, Nat2Z.inj_mul, Nat2Z.inj_pow, !Nat2Z.inj_sub by lia.
  reflexivity.
Qed.

Lemma pyramid_sides (x y : Tensor) (N C H W i : nat) :
  shape x = [N; C; H; W] -> shape y = [N; C; H; W] ->
  shape (fst (pyramid i x y)) = [N; C; level_side H i; level_side W i]
  /\ shape (snd (pyramid i x y)) = [N; C; level_side H i; level_side W i].
Proof.
  intros Hx Hy. induction i as [|i [IHx IHy]].
  - cbn [pyramid fst snd]. now rewrite !level_side_0.
  - cbn [pyramid]. rewrite !level_side_succ.
    exact (downsample_shape _ _ N C _ _ IHx IHy).
Qed.

(** X4. At level [i] of the pyramid both images still have N batch items and
    C channels, and their height and width are ceil(H / 2^i) and
    ceil(W / 2^i). *)
Theorem pyramid_level_sizes (x y : Tensor) (N C H W i : nat) :
  shape x = [N; C; H; W] -> shape y = [N; C; H; W] ->
  forall t, t = fst (pyramid i x y) \/ t = snd (pyramid i x y) ->
    dim t = 4%nat /\ size t 0 = N /\ size t 1 = C
    /\ size t (-2) = ((H + 2 ^ i - 1) / 2 ^ i)%nat
    /\ size t (-1) = ((W + 2 ^ i - 1) / 2 ^ i)%nat.
Proof.
  intros Hx Hy t Ht.
  destruct (pyramid_sides x y N C H W i Hx Hy) as [Hpx Hpy].
  assert (Hs : shape t = [N; C; level_side H i; level_side W i])
    by (destruct Ht; subst; assumption).
  destruct (size_rank4 t _ _ _ _ Hs) as (H0 & H1 & _ & _ & Hw & Hh).
  unfold dim. rewrite Hs. repeat split; assumption.
Qed.

Lemma pyramid_level_sizes_witness :
  size (fst (pyramid 4 x161 y161)) (-2) = 11%nat
  /\ size (snd (pyramid 4 x161 y161)) (-1) = 11%nat.
Proof.
  split.
  - exact (proj1 (proj2 (proj2 (proj2
      (pyramid_level_sizes x161 y161 1 1 161 162 4 eq_refl eq_refl _ (or_introl eq_refl)))))).
  - exact (proj2 (proj2 (proj2 (proj2
      (pyramid_level_sizes x161 y161 1 1 161 162 4 eq_refl eq_refl _ (or_intror eq_refl)))))).
Defined.

(** X5. An image that passes the size check is at least as large as the
    kernel at every level the loop visits. *)
Theorem size_check_covers_kernel (x y kernel : Tensor) (levels N C H W i : nat) :
  shape x = [N; C; H; W] -> shape y = [N; C; H; W] ->
  (min_side kernel levels <= Z.of_nat H)%Z ->
  (min_side kernel levels <= Z.of_nat W)%Z ->
  (i < levels)%nat ->
  (size kernel (-1) <= size (fst (pyramid i x y)) (-2))%nat
  /\ (size kernel (-1) <= size (fst (pyramid i x y)) (-1))%nat
  /\ (size kernel (-1) <= size (snd (pyramid i x y)) (-2))%nat
  /\ (size kernel (-1) <= size (snd (pyramid i x y)) (-1))%nat.
Proof.
  intros Hx Hy HH HW Hi.
  destruct (pyramid_sides x y N C H W i Hx Hy) as [Hpx Hpy].
  destruct (size_rank4 _ _ _ _ _ Hpx) as (_ & _ & _ & _ & -> & ->).
  destruct (size_rank4 _ _ _ _ _ Hpy) as (_ & _ & _ & _ & -> & ->).
  remember (size kernel (-1)) as k eqn:Hk.
  destruct k as [|k]; [lia|].
  rewrite (min_side_nat kernel levels (S k)) in HH, HW by lia.
  assert (Hpow : (2 ^ i <= 2 ^ (levels - 1))%nat) by (apply Nat.pow_le_mono_r; lia).
  assert (Hb : forall h, ((S k - 1) * 2 ^ (levels - 1) + 1 <= h)%nat ->
                         (S k <= level_side h i)%nat).
  { intros h Hh. apply level_side_lower. nia. }
  repeat split; apply Hb; lia.
Qed.

Lemma size_check_covers_kernel_witness :
  (size sample_kernel (-1) <= size (fst (pyramid 4 x161 y161)) (-2))%nat.
Proof.
  destruct (size_check_covers_kernel x161 y161 sample_kernel 5 1 1 161 162 4)
    as (H & _).
  - reflexivity.
  - reflexivity.
  - vm_compute. discriminate.
  - vm_compute. discriminate.
  - lia.
  - exact H.
Defined.

(** X6. The bound is the least one: one row below it, the coarsest level is
    one row shorter than the kernel. *)
Theorem one_below_min_size_is_too_small (x y kernel : Tensor) (levels N C H W : nat) :
  shape x = [N; C; H; W] -> shape y = [N; C; H; W] ->
  (1 <= size kernel (-1))%nat -> (1 <= levels)%nat ->
  Z.of_nat H = (min_side kernel levels - 1)%Z ->
  size (fst (pyramid (levels - 1) x y)) (-2) = (size kernel (-1) - 1)%nat.
Proof.
  intros Hx Hy Hk Hl HH.
  destruct (pyramid_sides x y N C H W (levels - 1) Hx Hy) as [Hpx _].
  destruct (size_rank4 _ _ _ _ _ Hpx) as (_ & _ & _ & _ & _ & ->).
  rewrite (min_side_nat kernel levels (size kernel (-1))) in HH by (try reflexivity; lia).
  assert (HHn : H = ((size kernel (-1) - 1) * 2 ^ (levels - 1))%nat) by lia.
  rewrite HHn. apply level_side_exact.
Qed.

Lemma one_below_min_size_is_too_small_witness :
  size (fst (pyramid 4 x160 x160)) (-2) = 10%nat.
Proof.
  apply (one_below_min_size_is_too_small x160 x160 sample_kernel 5 1 1 160 161).
  - reflexivity.
  - reflexivity.
  - vm_compute. lia.
  - lia.
  - vm_compute. reflexivity.
Defined.

End PyramidSizes.

(* ===================================================================== *)
(** * Further properties: exceptions of the two engines *)
(* ===================================================================== *)

Module EngineErrors.

Import Torch Py MsSsim Reference TorchFacts Pyramid.
Local Open Scope R_scope.

Section Engines.

Context {collaborators : Collaborators}.

Variables (data_range : R) (kernel : Tensor) (k1 k2 : R).

Lemma iteration_body_complex_raises (iteration : nat) (s : Locals) (e : exn) :
  iteration_body_complex data_range kernel k1 k2 iteration s = inl e -> after_check e.
Proof.
  unfold iteration_body_complex. cbv zeta.
  destruct (0 <? iteration)%nat.
  - repeat match goal with
           | |- context [bind (stack ?l ?d) _] =>
               let H := fresh "Hstack" in
               destruct (stack l d) as [?e|?t] eqn:H; cbn [bind ret];
               [intros [= <-]; right; left; exact (stack_raises _ _ _ H)|]
           end.
    destruct (_ssim_per_channel_complex _ _ kernel data_range k1 k2) as [o|[sv cs]];
      cbn [call bind ret]; [|discriminate].
    intros [= <-]. right. right. now exists o.
  - cbn [bind ret].
    destruct (_ssim_per_channel_complex _ _ kernel data_range k1 k2) as [o|[sv cs]];
      cbn [call bind ret]; [|discriminate].
    intros [= <-]. right. right. now exists o.
Qed.

Lemma for_range_complex_raises (iterations : list nat) (s : Locals) (e : exn) :
  for_range (iteration_body_complex data_range kernel k1 k2) iterations s = inl e ->
  after_check e.
Proof.
  revert s. induction iterations as [|i rest IH]; intros s; cbn [for_range].
  - discriminate.
  - destruct (iteration_body_complex data_range kernel k1 k2 i s) as [e'|s'] eqn:Hb;
      cbn [bind].
    + intros [= <-]. exact (iteration_body_complex_raises i s e' Hb).
    + apply IH.
Qed.

Lemma combine_complex_raises (stacked w : Tensor) (e : exn) :
  combine_complex stacked w = inl e -> e = RuntimeError.
Proof.
  unfold combine_complex. cbv zeta.
  destruct (stack _ (-1)) as [e1|v] eqn:H1; cbn [bind ret]; [|discriminate].
  intros [= <-]. exact (stack_raises _ _ _ H1).
Qed.

(** What is left of each engine once its size check has passed. *)
Lemma real_rest_raises (x y w : Tensor) (e : exn) :
  bind (for_range (iteration_body data_range kernel k1 k2) (seq 0 (size w 0))
                  (mkLocals x y [] None))
       (fun s => bind (stack_terms (loc_mcs s) (loc_ssim_val s))
                      (fun stacked => ret (combine stacked w))) = inl e ->
  after_check e.
Proof.
  destruct (for_range _ _ _) as [e1|s] eqn:Hloop; cbn [bind].
  - intros [= <-]. apply for_range_raises in Hloop. right. right. exact Hloop.
  - destruct (stack_terms _ _) as [e2|stacked] eqn:Hst; cbn [bind ret]; [|discriminate].
    intros [= <-]. apply stack_terms_raises in Hst. destruct Hst; [left|right; left]; assumption.
Qed.

Lemma complex_rest_raises (x y w : Tensor) (e : exn) :
  bind (for_range (iteration_body_complex data_range kernel k1 k2) (seq 0 (size w 0))
                  (mkLocals x y [] None))
       (fun s => bind (stack_terms (loc_mcs s) (loc_ssim_val s))
                      (fun stacked => combine_complex stacked w)) = inl e ->
  after_check e.
Proof.
  destruct (for_range _ _ _) as [e1|s] eqn:Hloop; cbn [bind].
  - intros [= <-]. exact (for_range_complex_raises _ _ _ Hloop).
  - destruct (stack_terms _ _) as [e2|stacked] eqn:Hst; cbn [bind ret].
    + intros [= <-]. apply stack_terms_raises in Hst.
      destruct Hst; [left|right; left]; assumption.
    + intros Hc. right. left. exact (combine_complex_raises _ _ _ Hc).
Qed.

Lemma after_check_not_value_error (e : exn) (m : Q) : after_check e -> e <> ValueError m.
Proof. intros [->|[->|[o ->]]]; discriminate. Qed.

Lemma real_check_raises (x y w : Tensor) :
  (1 <= size w 0)%nat ->
  (Z.of_nat (size x (-1)) < min_side kernel (size w 0)
   \/ Z.of_nat (size x (-2)) < min_side kernel (size w 0))%Z ->
  _multi_scale_ssim x y data_range kernel w k1 k2
  = inl (ValueError (min_size_of kernel (size w 0))).
Proof.
  intros Hl Hs. unfold _multi_scale_ssim. cbv zeta.
  rewrite size_check_spec by assumption.
  destruct (Z.ltb_spec (Z.of_nat (size x (-1))) (min_side kernel (size w 0)));
    destruct (Z.ltb_spec (Z.of_nat (size x (-2))) (min_side kernel (size w 0)));
    cbn [orb]; first [exfalso; lia | reflexivity].
Qed.

Lemma real_engine_raises (x y w : Tensor) (e : exn) :
  _multi_scale_ssim x y data_range kernel w k1 k2 = inl e ->
  (exists m, e = ValueError m) \/ after_check e.
Proof.
  unfold _multi_scale_ssim. cbv zeta. destruct (_ || _).
  - intros [= <-]. left. eexists. reflexivity.
  - intros H. right. exact (real_rest_raises x y w e H).
Qed.

Lemma complex_engine_raises (x y w : Tensor) (e : exn) :
  _multi_scale_ssim_complex x y data_range kernel w k1 k2 = inl e ->
  (exists m, e = ValueError m) \/ after_check e.
Proof.
  unfold _multi_scale_ssim_complex. cbv zeta. destruct (_ || _).
  - intros [= <-]. left. eexists. reflexivity.
  - intros H. right. exact (complex_rest_raises x y w e H).
Qed.

(** X1. For any number of levels >= 1, the real engine raises [ValueError]
    exactly when the width or the height of [x] is below
    (kernel side - 1) * 2^(levels - 1) + 1, and the exception carries that
    bound. *)
Theorem real_size_check (x y scale_weights_tensor : Tensor) :
  let levels := size scale_weights_tensor 0 in
  (1 <= levels)%nat ->
  let too_small :=
    (Z.of_nat (size x (-1)) < min_side kernel levels
     \/ Z.of_nat (size x (-2)) < min_side kernel levels)%Z in
  (too_small ->
   _multi_scale_ssim x y data_range kernel scale_weights_tensor k1 k2
   = inl (ValueError (min_size_of kernel levels)))
  /\ (~ too_small ->
      forall m, _multi_scale_ssim x y data_range kernel scale_weights_tensor k1 k2
                <> inl (ValueError m)).
Proof.
  intros levels Hl too_small. subst too_small. unfold _multi_scale_ssim. cbv zeta.
  fold levels. rewrite size_check_spec by assumption.
  destruct (Z.ltb_spec (Z.of_nat (size x (-1))) (min_side kernel levels)) as [Hw|Hw];
    destruct (Z.ltb_spec (Z.of_nat (size x (-2))) (min_side kernel levels)) as [Hh|Hh];
    cbn [orb];
    (split; [intros Hs; first [exfalso; lia | reflexivity] | intros Hn; try (exfalso; lia)]).
  intros m Hm. apply real_rest_raises in Hm.
  exact (after_check_not_value_error _ m Hm eq_refl).
Qed.

(** X2. The complex engine checks the same bound on [x.size(-2)] (width) and
    [x.size(-3)] (height) of the (N, C, H, W, 2) input. *)
Theorem complex_size_check (x y scale_weights_tensor : Tensor) :
  let levels := size scale_weights_tensor 0 in
  (1 <= levels)%nat ->
  let too_small :=
    (Z.of_nat (size x (-2)) < min_side kernel levels
     \/ Z.of_nat (size x (-3)) < min_side kernel levels)%Z in
  (too_small ->
   _multi_scale_ssim_complex x y data_range kernel scale_weights_tensor k1 k2
   = inl (ValueError (min_size_of kernel levels)))
  /\ (~ too_small ->
      forall m, _multi_scale_ssim_complex x y data_range kernel scale_weights_tensor k1 k2
                <> inl (ValueError m)).
Proof.
  intros levels Hl too_small. subst too_small. unfold _multi_scale_ssim_complex. cbv zeta.
  fold levels. rewrite size_check_spec by assumption.
  destruct (Z.ltb_spec (Z.of_nat (size x (-2))) (min_side kernel levels)) as [Hw|Hw];
    destruct (Z.ltb_spec (Z.of_nat (size x (-3))) (min_side kernel levels)) as [Hh|Hh];
    cbn [orb];
    (split; [intros Hs; first [exfalso; lia | reflexivity] | intros Hn; try (exfalso; lia)]).
  intros m Hm. apply complex_rest_raises in Hm.
  exact (after_check_not_value_error _ m Hm eq_refl).
Qed.

Lemma min_size_of_zero_levels (kernel' : Tensor) (a : nat) :
  Qlt_bool (inject_Z (Z.of_nat a)) (min_size_of kernel' 0)
  = (2 * Z.of_nat a <? Z.of_nat (size kernel' (-1)) + 1)%Z.
Proof.
  unfold Qlt_bool, min_size_of, Qle_bool.
  change (Z.of_nat 0 - 1)%Z with (-1)%Z.
  change (2 ^ (-1))%Q with (1 # 2)%Q.
  cbn [Qnum Qden Qplus Qmult inject_Z].
  destruct (Z.ltb_spec (2 * Z.of_nat a) (Z.of_nat (size kernel' (-1)) + 1)) as [H|H].
  - apply negb_true_iff. apply Z.leb_gt. lia.
  - apply negb_false_iff. apply Z.leb_le. lia.
Qed.

(** X3. With an empty scale-weight tensor neither engine returns a score: the
    size check compares against (kernel side - 1) * 0.5 + 1, and when it
    passes the loop body never runs, [ssim_val] is still [None], and
    [torch.stack] raises [TypeError]. *)
Theorem no_levels_no_score (x y scale_weights_tensor : Tensor) :
  size scale_weights_tensor 0 = 0%nat ->
  let k := Z.of_nat (size kernel (-1)) in
  _multi_scale_ssim x y data_range kernel scale_weights_tensor k1 k2
  = (if ((2 * Z.of_nat (size x (-1)) <? k + 1) || (2 * Z.of_nat (size x (-2)) <? k + 1))%Z
     then inl (ValueError (min_size_of kernel 0)) else inl TypeError)
  /\ _multi_scale_ssim_complex x y data_range kernel scale_weights_tensor k1 k2
     = (if ((2 * Z.of_nat (size x (-2)) <? k + 1) || (2 * Z.of_nat (size x (-3)) <? k + 1))%Z
        then inl (ValueError (min_size_of kernel 0)) else inl TypeError).
Proof.
  intros H0 k. unfold _multi_scale_ssim, _multi_scale_ssim_complex. cbv zeta.
  rewrite H0, !min_size_of_zero_levels. fold k.
  split.
  - destruct (_ || _); reflexivity.
  - destruct (_ || _); reflexivity.
Qed.

End Engines.

Lemma real_size_check_witness :
  _multi_scale_ssim x160 x160 1 sample_kernel default_weights 0.01 0.03
  = inl (ValueError (min_size_of sample_kernel 5)).
Proof.
  apply (proj1 (real_size_check 1 sample_kernel 0.01 0.03 x160 x160 default_weights
                  ltac:(vm_compute; lia))).
  right. vm_compute. reflexivity.
Defined.

Lemma complex_size_check_witness :
  _multi_scale_ssim_complex z160 z160 1 sample_kernel default_weights 0.01 0.03
  = inl (ValueError (min_size_of sample_kernel 5)).
Proof.
  apply (proj1 (complex_size_check 1 sample_kernel 0.01 0.03 z160 z160 default_weights
                  ltac:(vm_compute; lia))).
  right. vm_compute. reflexivity.
Defined.

Lemma no_levels_no_score_witness :
  _multi_scale_ssim x161 y161 1 sample_kernel no_weights 0.01 0.03 = inl TypeError.
Proof.
  exact (proj1 (no_levels_no_score 1 sample_kernel 0.01 0.03 x161 y161 no_weights eq_refl)).
Defined.

End EngineErrors.

(* ===================================================================== *)
(** * Further properties: values along the real path *)
(* ===================================================================== *)

Module RealValues.

Import Torch Py MsSsim Reference TorchFacts Pyramid.
Local Open Scope R_scope.

Lemma rpow_le_1 (x w : R) : 0 <= x <= 1 -> 0 <= w -> rpow x w <= 1.
Proof.
  intros [Hx0 Hx1] Hw. unfold rpow, fpow.
  destruct (Req_dec_T w 0); [lra|].
  destruct (Rlt_dec 0 x) as [Hpos|Hnpos].
  - unfold Rpower. rewrite <- exp_0.
    assert (Hln : ln x <= 0).
    { rewrite <- ln_1. destruct Hx1 as [Hlt| ->]; [|lra].
      left. apply ln_increasing; lra. }
    assert (Hprod : w * ln x <= 0) by nra.
    destruct Hprod as [Hlt|Heq].
    + left. now apply exp_increasing.
    + rewrite Heq. lra.
  - destruct (Req_dec_T x 0); [destruct (Rlt_dec 0 w); lra | lra].
Qed.

Lemma rpow_one_base (w : R) : rpow 1 w = 1.
Proof.
  unfold rpow, fpow.
  destruct (Req_dec_T w 0); [reflexivity|].
  destruct (Rlt_dec 0 1); [|lra].
  unfold Rpower. rewrite ln_1, Rmult_0_r. apply exp_0.
Qed.

Lemma Rprod_le_1 (l : list R) : Forall (fun v => 0 <= v <= 1) l -> 0 <= Rprod l <= 1.
Proof.
  induction 1 as [|v l Hv _ IH]; cbn [Rprod fold_right].
  - lra.
  - fold (Rprod l). nra.
Qed.

Lemma Rprod_ones (l : list R) : Forall (fun v => v = 1) l -> Rprod l = 1.
Proof.
  induction 1 as [|v l Hv _ IH]; cbn [Rprod fold_right].
  - reflexivity.
  - fold (Rprod l). rewrite Hv, IH. ring.
Qed.

Lemma Rsum_le_length (l : list R) :
  Forall (fun v => v <= 1) l -> Rsum l <= INR (List.length l).
Proof.
  induction 1 as [|v l Hv _ IH].
  - cbn. lra.
  - cbn [Rsum fold_right List.length]. fold (Rsum l). rewrite S_INR. lra.
Qed.

Lemma Rsum_ones (l : list R) : Forall (fun v => v = 1) l -> Rsum l = INR (List.length l).
Proof.
  induction 1 as [|v l Hv _ IH].
  - reflexivity.
  - cbn [Rsum fold_right List.length]. fold (Rsum l). rewrite S_INR, Hv, IH. ring.
Qed.

Lemma Rmean_le_1 (l : list R) : Forall (fun v => v <= 1) l -> Rmean l <= 1.
Proof.
  intros Hl. unfold Rmean. destruct l as [|v l].
  - cbn. unfold Rdiv. rewrite Rmult_0_l. lra.
  - assert (Hpos : 0 < INR (List.length (v :: l))) by (apply lt_0_INR; cbn; lia).
    apply Rmult_le_reg_r with (r := INR (List.length (v :: l))); [assumption|].
    unfold Rdiv. rewrite Rmult_assoc, Rinv_l by lra.
    rewrite Rmult_1_r, Rmult_1_l. now apply Rsum_le_length.
Qed.

Lemma Rmean_ones (l : list R) : l <> [] -> Forall (fun v => v = 1) l -> Rmean l = 1.
Proof.
  intros Hne Hl. unfold Rmean. rewrite (Rsum_ones l Hl).
  assert (Hpos : 0 < INR (List.length l)).
  { apply lt_0_INR. destruct l; [contradiction|cbn; lia]. }
  field. lra.
Qed.

Lemma spec_term_cases (levels : nat) (cs ssim : nat -> Tensor) (l : nat) :
  spec_term levels cs ssim l = ssim l \/ spec_term levels cs ssim l = cs l.
Proof. unfold spec_term. destruct (l =? levels - 1)%nat; [left|right]; reflexivity. Qed.

Section RealPath.

Context {collaborators : Collaborators}.

Variables (data_range : R) (kernel : Tensor) (k1 k2 : R).

(** One downsampling step keeps the value range: replicate padding adds no
    new values and a pooled pixel is the average of four padded pixels. *)
Lemma downsample_range_step (x y : Tensor) (n c h w : nat) (lo hi : R) :
  shape x = [n; c; h; w] -> shape y = [n; c; h; w] ->
  (forall i0 i1 i j, (i < h)%nat -> (j < w)%nat ->
     lo <= data x [i0; i1; i; j] <= hi /\ lo <= data y [i0; i1; i; j] <= hi) ->
  forall i0 i1 i j, (i < (h + 1) / 2)%nat -> (j < (w + 1) / 2)%nat ->
    lo <= data (fst (downsample x y)) [i0; i1; i; j] <= hi
    /\ lo <= data (snd (downsample x y)) [i0; i1; i; j] <= hi.
Proof.
  intros Hx Hy Hrange i0 i1 i j Hi Hj.
  rewrite (downsample_eq x y n c h w Hx). cbn [fst snd].
  set (p := Nat.max (h mod 2) (w mod 2)).
  destruct (padding_cases h w) as [Hph Hpw]. fold p in Hph, Hpw.
  assert (Hi2 : (2 * i + 2 <= h + p)%nat).
  { pose proof (Nat.div_mod_eq h 2). pose proof (Nat.div_mod_eq (h + 1) 2).
    assert ((h mod 2 < 2)%nat) by (apply Nat.mod_upper_bound; lia).
    assert (((h + 1) mod 2 < 2)%nat) by (apply Nat.mod_upper_bound; lia).
    pose proof (pool_extent_2 h p Hph) as He. unfold pool_extent in He.
    destruct (Nat.leb_spec 2 (h + p)); [|lia].
    pose proof (Nat.div_mod_eq (h + p - 2) 2).
    assert (((h + p - 2) mod 2 < 2)%nat) by (apply Nat.mod_upper_bound; lia).
    lia. }
  assert (Hj2 : (2 * j + 2 <= w + p)%nat).
  { pose proof (pool_extent_2 w p Hpw) as He. unfold pool_extent in He.
    destruct (Nat.leb_spec 2 (w + p)); [|lia].
    pose proof (Nat.div_mod_eq (w + p - 2) 2).
    assert (((w + p - 2) mod 2 < 2)%nat) by (apply Nat.mod_upper_bound; lia).
    lia. }
  assert (Hp1 : (p <= 1)%nat).
  { assert ((h mod 2 < 2)%nat) by (apply Nat.mod_upper_bound; lia). lia. }
  assert (Hcell : forall t, (t = x \/ t = y) -> forall a b,
             (a < h + p)%nat -> (b < w + p)%nat ->
             lo <= data (pad_replicate t (p, 0, p, 0)%nat) [i0; i1; a; b] <= hi).
  { intros t Ht a b Ha Hb.
    assert (Hts : shape t = [n; c; h; w]) by (destruct Ht; subst; assumption).
    rewrite (pad_replicate_data t n c h w p i0 i1 a b Hts Ha Hb).
    destruct (Hrange i0 i1 (a - p)%nat (b - p)%nat) as [Rx Ry]; [lia|lia|].
    destruct Ht; subst; assumption. }
  split.
  - rewrite (avg_pool2d_data _ _ _ _ _ i0 i1 i j (pad_replicate_shape x n c h w p Hx)).
    pose proof (Hcell x (or_introl eq_refl) (2 * i)%nat (2 * j)%nat ltac:(lia) ltac:(lia)).
    pose proof (Hcell x (or_introl eq_refl) (2 * i)%nat (2 * j + 1)%nat ltac:(lia) ltac:(lia)).
    pose proof (Hcell x (or_introl eq_refl) (2 * i + 1)%nat (2 * j)%nat ltac:(lia) ltac:(lia)).
    pose proof (Hcell x (or_introl eq_refl) (2 * i + 1)%nat (2 * j + 1)%nat
                  ltac:(lia) ltac:(lia)).
    lra.
  - rewrite (avg_pool2d_data _ _ _ _ _ i0 i1 i j (pad_replicate_shape y n c h w p Hy)).
    pose proof (Hcell y (or_intror eq_refl) (2 * i)%nat (2 * j)%nat ltac:(lia) ltac:(lia)).
    pose proof (Hcell y (or_intror eq_refl) (2 * i)%nat (2 * j + 1)%nat ltac:(lia) ltac:(lia)).
    pose proof (Hcell y (or_intror eq_refl) (2 * i + 1)%nat (2 * j)%nat ltac:(lia) ltac:(lia)).
    pose proof (Hcell y (or_intror eq_refl) (2 * i + 1)%nat (2 * j + 1)%nat
                  ltac:(lia) ltac:(lia)).
    lra.
Qed.

(** X7. The images of every pyramid level stay within the value range of the
    inputs: replicate padding adds no new values and average pooling is a
    mean. *)
Theorem pyramid_keeps_range (x y : Tensor) (N C H W : nat) (lo hi : R) (level : nat) :
  shape x = [N; C; H; W] -> shape y = [N; C; H; W] ->
  (forall i0 i1 i j, (i < H)%nat -> (j < W)%nat ->
     lo <= data x [i0; i1; i; j] <= hi /\ lo <= data y [i0; i1; i; j] <= hi) ->
  forall i0 i1 i j,
    (i < size (fst (pyramid level x y)) (-2))%nat ->
    (j < size (fst (pyramid level x y)) (-1))%nat ->
    lo <= data (fst (pyramid level x y)) [i0; i1; i; j] <= hi
    /\ lo <= data (snd (pyramid level x y)) [i0; i1; i; j] <= hi.
Proof.
  intros Hx Hy Hrange.
  assert (Hall : forall i0 i1 i j,
             (i < level_side H level)%nat ->
             (j < level_side W level)%nat ->
             lo <= data (fst (pyramid level x y)) [i0; i1; i; j] <= hi
             /\ lo <= data (snd (pyramid level x y)) [i0; i1; i; j] <= hi).
  { induction level as [|level IH].
    - rewrite !PyramidSizes.level_side_0. exact Hrange.
    - destruct (PyramidSizes.pyramid_sides x y N C H W level Hx Hy) as [Hpx Hpy].
      rewrite !PyramidSizes.level_side_succ. cbn [pyramid].
      exact (downsample_range_step _ _ N C _ _ lo hi Hpx Hpy IH). }
  destruct (PyramidSizes.pyramid_sides x y N C H W level Hx Hy) as [Hpx _].
  destruct (size_rank4 _ _ _ _ _ Hpx) as (_ & _ & _ & _ & -> & ->).
  exact Hall.
Qed.

(** X8. When no term the primitive returns exceeds 1 and no scale weight is
    negative, every score of the real path lies between 0 and 1. *)
Theorem real_path_score_at_most_one
        (x y scale_weights_tensor : Tensor) (levels N C H W : nat)
        (ssim cs : nat -> Tensor) :
  shape x = [N; C; H; W] ->
  shape scale_weights_tensor = [levels] -> (1 <= levels)%nat ->
  (min_side kernel levels <= Z.of_nat H)%Z ->
  (min_side kernel levels <= Z.of_nat W)%Z ->
  (forall i, (i < levels)%nat ->
     _ssim_per_channel (fst (pyramid i x y)) (snd (pyramid i x y)) kernel data_range k1 k2
     = inr (ssim i, cs i)) ->
  (forall i, (i < levels)%nat -> shape (ssim i) = [N; C] /\ shape (cs i) = [N; C]) ->
  (forall i idx, (i < levels)%nat -> data (ssim i) idx <= 1 /\ data (cs i) idx <= 1) ->
  (forall i, (i < levels)%nat -> 0 <= data scale_weights_tensor [i]) ->
  exists msssim_val,
    _multi_scale_ssim x y data_range kernel scale_weights_tensor k1 k2 = inr msssim_val
    /\ forall n, 0 <= data msssim_val [n] <= 1.
Proof.
  intros Hx Hw Hlev HH HW Hprim Hshape Hle Hpos.
  destruct (real_path_run data_range kernel k1 k2 x y scale_weights_tensor levels N C H W
              ssim cs Hx Hw Hlev HH HW Hprim Hshape) as (stacked & Hrun & Hsh & Hdata).
  assert (Hsize : size scale_weights_tensor 0 = levels).
  { unfold size, dim. now rewrite Hw. }
  destruct (combine_shape_data stacked scale_weights_tensor N C Hsh) as [_ Hcd].
  exists (combine stacked scale_weights_tensor). split; [exact Hrun|].
  intros n. rewrite Hcd, Hsize.
  assert (Hall : Forall (fun v => 0 <= v <= 1)
            (map (fun c =>
                    Rprod (map (fun l => rpow (Rmax 0 (data stacked [l; n; c]))
                                              (data scale_weights_tensor [l]))
                               (seq 0 levels)))
                 (seq 0 C))).
  { apply Forall_forall. intros v Hv. apply in_map_iff in Hv.
    destruct Hv as (c & <- & _). apply Rprod_le_1.
    apply Forall_forall. intros u Hu. apply in_map_iff in Hu.
    destruct Hu as (l & <- & Hl). apply in_seq in Hl.
    split; [apply rpow_nonneg_base, relu_nonneg|].
    apply rpow_le_1; [|apply Hpos; lia].
    split; [apply relu_nonneg|].
    rewrite Hdata by lia.
    destruct (Hle l [n; c] ltac:(lia)) as [Hs Hc].
    apply Rmax_lub; [lra|].
    destruct (spec_term_cases levels cs ssim l) as [-> | ->]; assumption. }
  split.
  - apply Rmean_nonneg. eapply Forall_impl; [|exact Hall]. cbv beta. intros; lra.
  - apply Rmean_le_1. eapply Forall_impl; [|exact Hall]. cbv beta. intros; lra.
Qed.

(** X9. When every term the primitive returns equals 1, every score is
    exactly 1, whatever the scale weights. *)
Theorem real_path_score_of_unit_terms
        (x y scale_weights_tensor : Tensor) (levels N C H W : nat)
        (ssim cs : nat -> Tensor) :
  shape x = [N; C; H; W] ->
  shape scale_weights_tensor = [levels] -> (1 <= levels)%nat -> (1 <= C)%nat ->
  (min_side kernel levels <= Z.of_nat H)%Z ->
  (min_side kernel levels <= Z.of_nat W)%Z ->
  (forall i, (i < levels)%nat ->
     _ssim_per_channel (fst (pyramid i x y)) (snd (pyramid i x y)) kernel data_range k1 k2
     = inr (ssim i, cs i)) ->
  (forall i, (i < levels)%nat -> shape (ssim i) = [N; C] /\ shape (cs i) = [N; C]) ->
  (forall i idx, (i < levels)%nat -> data (ssim i) idx = 1 /\ data (cs i) idx = 1) ->
  exists msssim_val,
    _multi_scale_ssim x y data_range kernel scale_weights_tensor k1 k2 = inr msssim_val
    /\ forall n, data msssim_val [n] = 1.
Proof.
  intros Hx Hw Hlev HC HH HW Hprim Hshape Hone.
  destruct (real_path_run data_range kernel k1 k2 x y scale_weights_tensor levels N C H W
              ssim cs Hx Hw Hlev HH HW Hprim Hshape) as (stacked & Hrun & Hsh & Hdata).
  assert (Hsize : size scale_weights_tensor 0 = levels).
  { unfold size, dim. now rewrite Hw. }
  destruct (combine_shape_data stacked scale_weights_tensor N C Hsh) as [_ Hcd].
  exists (combine stacked scale_weights_tensor). split; [exact Hrun|].
  intros n. rewrite Hcd, Hsize.
  apply Rmean_ones.
  - destruct C as [|C']; [lia|]. cbn [seq map]. discriminate.
  - apply Forall_forall. intros v Hv. apply in_map_iff in Hv.
    destruct Hv as (c & <- & _). apply Rprod_ones.
    apply Forall_forall. intros u Hu. apply in_map_iff in Hu.
    destruct Hu as (l & <- & Hl). apply in_seq in Hl.
    rewrite Hdata by lia.
    destruct (Hone l [n; c] ltac:(lia)) as [Hs Hc].
    assert (Ht : data (spec_term levels cs ssim l) [n; c] = 1).
    { destruct (spec_term_cases levels cs ssim l) as [-> | ->]; assumption. }
    rewrite Ht, Rmax_right by lra. apply rpow_one_base.
Qed.

End RealPath.

(** ** Runs on the sample inputs *)

Lemma sample_pixels_in_range (i0 i1 i j : nat) :
  (i < 161)%nat -> (j < 162)%nat ->
  0.25 <= data x161 [i0; i1; i; j] <= 0.5 /\ 0.25 <= data y161 [i0; i1; i; j] <= 0.5.
Proof.
  intros _ _. cbn. destruct (i + j =? 0)%nat; lra.
Qed.

Lemma pyramid_keeps_range_witness :
  0.25 <= data (fst (pyramid 4 x161 y161)) [0; 0; 10; 10]%nat <= 0.5
  /\ 0.25 <= data (snd (pyramid 4 x161 y161)) [0; 0; 10; 10]%nat <= 0.5.
Proof.
  apply (pyramid_keeps_range x161 y161 1 1 161 162 0.25 0.5 4 eq_refl eq_refl
           sample_pixels_in_range).
  - vm_compute. lia.
  - vm_compute. lia.
Defined.

Lemma unit_terms_hypotheses (i : nat) :
  shape (fst (unit_terms (fst (pyramid i x161 y161)))) = [1; 1]%nat
  /\ shape (snd (unit_terms (fst (pyramid i x161 y161)))) = [1; 1]%nat.
Proof.
  destruct (PyramidSizes.pyramid_sides x161 y161 1 1 161 162 i eq_refl eq_refl) as [Hpx _].
  destruct (size_rank4 _ _ _ _ _ Hpx) as (H0 & H1 & _).
  cbn [unit_terms fst snd shape]. rewrite H0, H1. now split.
Qed.

Lemma real_path_score_at_most_one_witness :
  exists msssim_val,
    _multi_scale_ssim (collaborators := unit_collaborators)
      x161 y161 1 sample_kernel default_weights 0.01 0.03 = inr msssim_val
    /\ 0 <= data msssim_val [0%nat] <= 1.
Proof.
  destruct (real_path_score_at_most_one (collaborators := unit_collaborators)
              1 sample_kernel 0.01 0.03 x161 y161 default_weights 5 1 1 161 162
              (fun i => fst (unit_terms (fst (pyramid i x161 y161))))
              (fun i => snd (unit_terms (fst (pyramid i x161 y161)))))
    as (v & Hrun & Hv).
  - reflexivity.
  - reflexivity.
  - lia.
  - vm_compute. discriminate.
  - vm_compute. discriminate.
  - intros i _. reflexivity.
  - intros i _. exact (unit_terms_hypotheses i).
  - intros i idx _. cbn. lra.
  - intros i Hi. left. exact (default_weights_positive i Hi).
  - exists v. split; [exact Hrun | exact (Hv 0%nat)].
Defined.

Lemma real_path_score_of_unit_terms_witness :
  exists msssim_val,
    _multi_scale_ssim (collaborators := unit_collaborators)
      x161 y161 1 sample_kernel default_weights 0.01 0.03 = inr msssim_val
    /\ data msssim_val [0%nat] = 1.
Proof.
  destruct (real_path_score_of_unit_terms (collaborators := unit_collaborators)
              1 sample_kernel 0.01 0.03 x161 y161 default_weights 5 1 1 161 162
              (fun i => fst (unit_terms (fst (pyramid i x161 y161))))
              (fun i => snd (unit_terms (fst (pyramid i x161 y161)))))
    as (v & Hrun & Hv).
  - reflexivity.
  - reflexivity.
  - lia.
  - lia.
  - vm_compute. discriminate.
  - vm_compute. discriminate.
  - intros i _. reflexivity.
  - intros i _. exact (unit_terms_hypotheses i).
  - intros i idx _. cbn. split; reflexivity.
  - exists v. split; [exact Hrun | exact (Hv 0%nat)].
Defined.

End RealValues.

(* ===================================================================== *)
(** * The sign of the real-path score *)
(* ===================================================================== *)

Module ScoreSign.

Import Torch Py MsSsim Reference TorchFacts Pyramid.
Local Open Scope R_scope.

(** On a clamped base and a weight that is not negative the power is a real
    number, the one [rpow] gives. *)
Lemma fpow_clamped (x w : R) : 0 <= x -> 0 <= w -> fpow (Fin x) w = Fin (rpow x w).
Proof.
  intros Hx Hw. unfold rpow, fpow.
  destruct (Req_dec_T w 0); [reflexivity|].
  destruct (Rlt_dec 0 x); [reflexivity|].
  destruct (Req_dec_T x 0); [|lra].
  destruct (Rlt_dec 0 w); [reflexivity | lra].
Qed.

Lemma fprod_list_finite (l : list R) :
  Extended.fprod_list (map Fin l) = Fin (Rprod l).
Proof.
  induction l as [|r l IH]; cbn [map Extended.fprod_list fold_right]; [reflexivity|].
  fold (Extended.fprod_list (map Fin l)). now rewrite IH.
Qed.

Lemma fsum_list_finite (l : list R) :
  Extended.fsum_list (map Fin l) = Fin (Rsum l).
Proof.
  induction l as [|r l IH]; cbn [map Extended.fsum_list fold_right]; [reflexivity|].
  fold (Extended.fsum_list (map Fin l)). now rewrite IH.
Qed.

Lemma fmean_list_finite (l : list R) :
  l <> [] -> Extended.fmean_list (map Fin l) = Fin (Rmean l).
Proof.
  intros Hne. unfold Extended.fmean_list. rewrite fsum_list_finite, length_map.
  destruct l as [|r l]; [contradiction|]. reflexivity.
Qed.

(** The entries of [Extended.combine] on a (levels, N, C) stack. *)
Lemma extended_combine_data (stacked : Extended.FTensor) (w : Tensor) (N C : nat) :
  Extended.fshape stacked = [size w 0; N; C] ->
  forall n,
    Extended.fdata (Extended.combine stacked w) [n]
    = Extended.fmean_list
        (map (fun c =>
                Extended.fprod_list
                  (map (fun l => fpow (Extended.frelu (Extended.fdata stacked [l; n; c]))
                                      (data w [l]))
                       (seq 0 (size w 0))))
             (seq 0 C)).
Proof.
  intros Hs n.
  unfold Extended.combine, Extended.mean, Extended.prod, Extended.reduce_dim,
    Extended.pow_tensor, Extended.relu, view_m1_1_1, bcast_index, insert_at.
  cbn [Extended.fshape Extended.fdata shape data]. rewrite Hs.
  cbn [List.length axis Z.ltb Z.compare Z.to_nat nth remove_at firstn skipn app].
  change (Pos.to_nat 1) with 1%nat.
  cbn [List.length nth firstn skipn app List.combine].
  f_equal. apply map_ext. intros c.
  f_equal. apply map_ext_in. intros l Hl. apply in_seq in Hl.
  cbn [map fst snd hd].
  destruct (Nat.eqb_spec (size w 0) 1) as [H1|H1]; [|reflexivity].
  replace l with 0%nat by lia. reflexivity.
Qed.

(** On real-valued terms and weights that are not negative, lines 242-245
    compute real numbers throughout: [MsSsim.combine] is the finite fragment of
    [Extended.combine]. *)
Lemma combine_finite_fragment (stacked w : Tensor) (N C : nat) :
  shape stacked = [size w 0; N; C] -> (1 <= C)%nat ->
  (forall l, (l < size w 0)%nat -> 0 <= data w [l]) ->
  forall n,
    Extended.fdata (Extended.combine (Extended.lift stacked) w) [n]
    = Fin (data (MsSsim.combine stacked w) [n]).
Proof.
  intros Hs HC Hw n.
  rewrite (extended_combine_data (Extended.lift stacked) w N C Hs).
  destruct (combine_shape_data stacked w N C Hs) as [_ ->].
  rewrite <- fmean_list_finite by (destruct C; [lia | discriminate]).
  rewrite map_map. f_equal. apply map_ext. intros c.
  rewrite <- fprod_list_finite, map_map. f_equal.
  apply map_ext_in. intros l Hl. apply in_seq in Hl.
  cbn [Extended.lift Extended.fdata Extended.frelu].
  apply fpow_clamped; [apply relu_nonneg | apply Hw; lia].
Qed.

Lemma fprod_list_nonneg (l : list fval) :
  Forall (fun v => exists r, v = Fin r /\ 0 <= r) l ->
  exists r, Extended.fprod_list l = Fin r /\ 0 <= r.
Proof.
  induction 1 as [|v l (r & -> & Hr) _ (p & IH & Hp)].
  - exists 1. split; [reflexivity | lra].
  - cbn [Extended.fprod_list fold_right]. fold (Extended.fprod_list l). rewrite IH.
    exists (r * p). split; [reflexivity | now apply Rmult_le_pos].
Qed.

Lemma fsum_list_nonneg (l : list fval) :
  Forall (fun v => exists r, v = Fin r /\ 0 <= r) l ->
  exists r, Extended.fsum_list l = Fin r /\ 0 <= r.
Proof.
  induction 1 as [|v l (r & -> & Hr) _ (p & IH & Hp)].
  - exists 0. split; [reflexivity | lra].
  - cbn [Extended.fsum_list fold_right]. fold (Extended.fsum_list l). rewrite IH.
    exists (r + p). split; [reflexivity | lra].
Qed.

Lemma fmean_list_nonneg (l : list fval) :
  l <> [] ->
  Forall (fun v => exists r, v = Fin r /\ 0 <= r) l ->
  exists r, Extended.fmean_list l = Fin r /\ 0 <= r.
Proof.
  intros Hne Hl. destruct (fsum_list_nonneg l Hl) as (s & Hs & Hs0).
  unfold Extended.fmean_list. rewrite Hs.
  destruct l as [|v l]; [contradiction|]. cbn [List.length Extended.fdiv_count].
  eexists. split; [reflexivity|].
  unfold Rdiv. apply Rmult_le_pos; [assumption|].
  left. apply Rinv_0_lt_compat. apply lt_0_INR. lia.
Qed.

Section RealPath.

Context {collaborators : Collaborators}.

Variables (data_range : R) (kernel : Tensor) (k1 k2 : R).

(** C7 (amended). When every stacked term is a real number, the weights are
    positive and there is a channel, every score lines 242-245 compute is a real
    number that is not negative: each factor is a clamped base raised to a
    positive weight.  This is the score [_multi_scale_ssim] returns whenever the
    primitive answers with real-valued (N, C) terms at every level. *)
Theorem real_path_score_nonneg :
  (forall (stacked : Extended.FTensor) (scale_weights_tensor : Tensor) (N C : nat),
     Extended.fshape stacked = [size scale_weights_tensor 0; N; C] -> (1 <= C)%nat ->
     (forall l n c, (l < size scale_weights_tensor 0)%nat ->
        exists r, Extended.fdata stacked [l; n; c] = Fin r) ->
     (forall l, (l < size scale_weights_tensor 0)%nat -> 0 < data scale_weights_tensor [l]) ->
     forall n, exists r,
       Extended.fdata (Extended.combine stacked scale_weights_tensor) [n] = Fin r
       /\ 0 <= r)
  /\ (forall (x y scale_weights_tensor : Tensor) (levels N C H W : nat)
             (ssim cs : nat -> Tensor),
        shape x = [N; C; H; W] ->
        shape scale_weights_tensor = [levels] -> (1 <= levels)%nat -> (1 <= C)%nat ->
        (min_side kernel levels <= Z.of_nat H)%Z ->
        (min_side kernel levels <= Z.of_nat W)%Z ->
        (forall i, (i < levels)%nat ->
           _ssim_per_channel (fst (pyramid i x y)) (snd (pyramid i x y))
             kernel data_range k1 k2
           = inr (ssim i, cs i)) ->
        (forall i, (i < levels)%nat -> shape (ssim i) = [N; C] /\ shape (cs i) = [N; C]) ->
        (forall l, (l < levels)%nat -> 0 < data scale_weights_tensor [l]) ->
        exists msssim_val stacked,
          _multi_scale_ssim x y data_range kernel scale_weights_tensor k1 k2
          = inr msssim_val
          /\ (forall l idx, (l < levels)%nat ->
                data stacked (l :: idx) = data (spec_term levels cs ssim l) idx)
          /\ forall n,
               Extended.fdata
                 (Extended.combine (Extended.lift stacked) scale_weights_tensor) [n]
               = Fin (data msssim_val [n])
               /\ 0 <= data msssim_val [n]).
Proof.
  assert (HA : forall (stacked : Extended.FTensor) (w : Tensor) (N C : nat),
             Extended.fshape stacked = [size w 0; N; C] -> (1 <= C)%nat ->
             (forall l n c, (l < size w 0)%nat ->
                exists r, Extended.fdata stacked [l; n; c] = Fin r) ->
             (forall l, (l < size w 0)%nat -> 0 < data w [l]) ->
             forall n, exists r,
               Extended.fdata (Extended.combine stacked w) [n] = Fin r /\ 0 <= r).
  { intros stacked w N C Hs HC Hfin Hpos n.
    rewrite (extended_combine_data stacked w N C Hs).
    apply fmean_list_nonneg; [destruct C; [lia | discriminate]|].
    apply Forall_forall. intros v Hv. apply in_map_iff in Hv.
    destruct Hv as (c & <- & _). apply fprod_list_nonneg.
    apply Forall_forall. intros u Hu. apply in_map_iff in Hu.
    destruct Hu as (l & <- & Hl). apply in_seq in Hl.
    destruct (Hfin l n c ltac:(lia)) as [r ->]. cbn [Extended.frelu].
    rewrite fpow_clamped by (try apply relu_nonneg; left; apply Hpos; lia).
    eexists. split; [reflexivity|]. apply rpow_nonneg_base, relu_nonneg. }
  split; [exact HA|].
  intros x y w levels N C H W ssim cs Hx Hw Hlev HC HH HW Hprim Hshape Hpos.
  destruct (real_path_run data_range kernel k1 k2 x y w levels N C H W ssim cs
              Hx Hw Hlev HH HW Hprim Hshape) as (stacked & Hrun & Hsh & Hdata).
  assert (Hsize : size w 0 = levels) by (unfold size, dim; now rewrite Hw).
  exists (MsSsim.combine stacked w), stacked.
  split; [exact Hrun|]. split; [exact Hdata|].
  intros n.
  assert (Hfrag := combine_finite_fragment stacked w N C Hsh HC
                     ltac:(intros l Hl; left; apply Hpos; lia) n).
  split; [exact Hfrag|].
  destruct (HA (Extended.lift stacked) w N C Hsh HC
              ltac:(intros l n' c _; eexists; reflexivity)
              ltac:(intros l Hl; apply Hpos; lia) n) as (r & Hr & Hr0).
  rewrite Hfrag in Hr. injection Hr as <-. exact Hr0.
Qed.

End RealPath.

(** C7 as stated fails where the primitive returns NaN, which the clamp lets
    through: the score of a NaN term is NaN, and NaN is not >= 0. *)
Lemma nan_term_gives_nan_score :
  Extended.fdata (Extended.combine nan_term single_weight) [0%nat] = NaN
  /\ ~ Extended.nonneg (Extended.fdata (Extended.combine nan_term single_weight) [0%nat]).
Proof.
  assert (H : Extended.fdata (Extended.combine nan_term single_weight) [0%nat] = NaN).
  { rewrite (extended_combine_data nan_term single_weight 1%nat 1%nat eq_refl).
    change (size single_weight 0) with 1%nat.
    cbn [seq map nan_term Extended.fdata Extended.frelu single_weight tensor_of_list
         data hd nth].
    unfold fpow. destruct (Req_dec_T 1 0); [lra|]. reflexivity. }
  split; [exact H|]. rewrite H. cbn. tauto.
Qed.

Lemma half_weights_positive (l : nat) :
  (l < size half_weights 0)%nat -> 0 < data half_weights [l].
Proof.
  change (size half_weights 0) with 2%nat. intros Hl.
  do 2 (destruct l as [|l]; [cbn; lra|]). lia.
Qed.

Lemma real_path_score_nonneg_witness :
  (exists r,
     Extended.fdata (Extended.combine (Extended.lift real_terms) half_weights) [0%nat]
     = Fin r /\ 0 <= r)
  /\ exists msssim_val,
       _multi_scale_ssim x161 y161 1 sample_kernel default_weights 0.01 0.03
       = inr msssim_val
       /\ 0 <= data msssim_val [0%nat].
Proof.
  split.
  - apply (proj1 (real_path_score_nonneg 1 sample_kernel 0.01 0.03)
             (Extended.lift real_terms) half_weights 1%nat 1%nat).
    + reflexivity.
    + lia.
    + intros l n c _. eexists. reflexivity.
    + exact half_weights_positive.
  - destruct (proj2 (real_path_score_nonneg 1 sample_kernel 0.01 0.03)
                x161 y161 default_weights 5%nat 1%nat 1%nat 161%nat 162%nat
                sample_ssim sample_cs)
      as (v & stacked & Hrun & _ & Hv).
    + reflexivity.
    + reflexivity.
    + lia.
    + lia.
    + vm_compute. discriminate.
    + vm_compute. discriminate.
    + intros i _. reflexivity.
    + exact sample_terms_shapes.
    + exact default_weights_positive.
    + exists v. split; [exact Hrun | exact (proj2 (Hv 0%nat))].
Defined.

End ScoreSign.

(* ===================================================================== *)
(** * The loss *)
(* ===================================================================== *)

Module Loss.

Import Torch Py MsSsim Reference TorchFacts Pyramid Metric RealValues.
Local Open Scope R_scope.
Local Open Scope string_scope.

(** Both images of a level are the same when the two inputs are. *)
Lemma pyramid_diag (x : Tensor) (i : nat) : snd (pyramid i x x) = fst (pyramid i x x).
Proof.
  induction i as [|i IH]; [reflexivity|].
  cbn [pyramid]. rewrite IH. reflexivity.
Qed.

(** Stacked terms that are all 1 combine to 1, whatever the weights. *)
Lemma combine_of_unit_terms (stacked w : Tensor) (N C : nat) :
  shape stacked = [size w 0; N; C] -> (1 <= C)%nat ->
  (forall l n c, (l < size w 0)%nat -> data stacked [l; n; c] = 1) ->
  shape (combine stacked w) = [N] /\ forall n, data (combine stacked w) [n] = 1.
Proof.
  intros Hs HC Hone.
  destruct (combine_shape_data stacked w N C Hs) as [Hsh Hcd].
  split; [exact Hsh|].
  intros n. rewrite Hcd. apply Rmean_ones.
  - destruct C as [|C']; [lia|]. cbn [seq map]. discriminate.
  - apply Forall_forall. intros v Hv. apply in_map_iff in Hv.
    destruct Hv as (c & <- & _). apply Rprod_ones.
    apply Forall_forall. intros u Hu. apply in_map_iff in Hu.
    destruct Hu as (l & <- & Hl). apply in_seq in Hl.
    rewrite Hone by lia. rewrite Rmax_right by lra. apply rpow_one_base.
Qed.

Section PublicFunction.

Context {collaborators : Collaborators}.

(** The unreduced metric of a real image with itself, when the primitive
    answers 1 for both terms on identical images: 1 for every batch item. *)
Lemma identical_metric_run
      (x x' g scale_weights_tensor : Tensor) (kernel_size : Z)
      (kernel_sigma data_range k1 k2 : R) (N C H W k levels : nat) :
  _validate_input x x true kernel_size (Some (inr scale_weights_tensor)) data_range
  = inr tt ->
  _adjust_dimensions x x = inr (x', x') ->
  shape x' = [N; C; H; W] -> (1 <= C)%nat ->
  gaussian_filter kernel_size kernel_sigma = inr g ->
  shape g = [1%nat; k; k] ->
  shape scale_weights_tensor = [levels] -> (1 <= levels)%nat ->
  ((Z.of_nat k - 1) * 2 ^ (Z.of_nat levels - 1) + 1 <= Z.of_nat H)%Z ->
  ((Z.of_nat k - 1) * 2 ^ (Z.of_nat levels - 1) + 1 <= Z.of_nat W)%Z ->
  (forall t h w, shape t = [N; C; h; w] ->
     exists ssim_val cs,
       _ssim_per_channel t t (repeat_tensor g [C; 1%nat; 1%nat; 1%nat]) data_range k1 k2
       = inr (ssim_val, cs)
       /\ shape ssim_val = [N; C] /\ shape cs = [N; C]
       /\ forall idx, data ssim_val idx = 1 /\ data cs idx = 1) ->
  exists per_item,
    multi_scale_ssim x x kernel_size kernel_sigma data_range "none"
      (Some (inr scale_weights_tensor)) k1 k2
    = inr per_item
    /\ shape per_item = [N]
    /\ forall n, data per_item [n] = 1.
Proof.
  intros Hval Hadj Hx HC Hg Hgs Hw Hlev HH HW Hprim.
  unfold multi_scale_ssim.
  rewrite Hval, Hadj, Hg. cbn [call bind as_tensor]. cbv zeta.
  assert (Hxs : shape (div_scalar x' data_range) = [N; C; H; W]) by exact Hx.
  assert (Hdim : (dim (div_scalar x' data_range) =? 5)%nat = false).
  { unfold dim. now rewrite Hxs. }
  rewrite Hdim.
  destruct (size_rank4 _ _ _ _ _ Hxs) as (_ & Hc1 & _).
  rewrite Hc1.
  set (X := div_scalar x' data_range) in *.
  set (kernel := repeat_tensor g _) in *.
  assert (Hk : size kernel (-1) = k).
  { subst kernel. unfold size, dim, repeat_tensor. cbn [shape]. unfold dim.
    rewrite Hgs. cbn. change (Pos.to_nat 3) with 3%nat. cbn. lia. }
  assert (Hside : min_side kernel levels
                  = ((Z.of_nat k - 1) * 2 ^ (Z.of_nat levels - 1) + 1)%Z).
  { unfold min_side. now rewrite Hk. }
  set (term := fun i =>
                 match _ssim_per_channel (fst (pyramid i X X)) (fst (pyramid i X X))
                         kernel data_range k1 k2 with
                 | inr sc => sc
                 | inl _ => (X, X)
                 end).
  assert (Hterm : forall i,
             _ssim_per_channel (fst (pyramid i X X)) (snd (pyramid i X X))
               kernel data_range k1 k2
             = inr (fst (term i), snd (term i))
             /\ shape (fst (term i)) = [N; C] /\ shape (snd (term i)) = [N; C]
             /\ forall idx, data (fst (term i)) idx = 1 /\ data (snd (term i)) idx = 1).
  { intros i. rewrite pyramid_diag.
    destruct (pyramid_shape X X N C H W Hxs Hxs i) as (h & w & Hfx & _).
    destruct (Hprim (fst (pyramid i X X)) h w Hfx) as (s & c & Heq & Hs & Hc & Hone).
    unfold term. rewrite Heq. cbn [fst snd]. repeat split; try assumption; apply Hone. }
  destruct (real_path_run data_range kernel k1 k2 X X scale_weights_tensor levels N C H W
              (fun i => fst (term i)) (fun i => snd (term i)) Hxs Hw Hlev
              ltac:(rewrite Hside; exact HH) ltac:(rewrite Hside; exact HW)
              (fun i _ => proj1 (Hterm i))
              (fun i _ => conj (proj1 (proj2 (Hterm i)))
                              (proj1 (proj2 (proj2 (Hterm i))))))
    as (stacked & Hrun & Hsh & Hdata).
  rewrite Hrun. cbn [bind ret String.eqb Ascii.eqb Bool.eqb].
  assert (Hsize : size scale_weights_tensor 0 = levels).
  { unfold size, dim. now rewrite Hw. }
  destruct (combine_of_unit_terms stacked scale_weights_tensor N C Hsh HC) as [Hs1 Hd1].
  { intros l n c Hl. rewrite Hsize in Hl. rewrite Hdata by exact Hl.
    destruct (Hterm l) as (_ & _ & _ & Hone).
    destruct (spec_term_cases levels (fun i => snd (term i)) (fun i => fst (term i)) l)
      as [-> | ->]; apply Hone. }
  eexists. split; [reflexivity|]. split; assumption.
Qed.

(** The loss of a real image with itself, by reduction. *)
Lemma identical_loss
      (self : MultiScaleSSIMLoss) (x x' g : Tensor) (N C H W k levels : nat) :
  _validate_input x x true (self_kernel_size self)
    (Some (inr (self_scale_weights self))) (self_data_range self) = inr tt ->
  _adjust_dimensions x x = inr (x', x') ->
  shape x' = [N; C; H; W] -> (1 <= N)%nat -> (1 <= C)%nat ->
  gaussian_filter (self_kernel_size self) (self_kernel_sigma self) = inr g ->
  shape g = [1%nat; k; k] ->
  shape (self_scale_weights self) = [levels] -> (1 <= levels)%nat ->
  ((Z.of_nat k - 1) * 2 ^ (Z.of_nat levels - 1) + 1 <= Z.of_nat H)%Z ->
  ((Z.of_nat k - 1) * 2 ^ (Z.of_nat levels - 1) + 1 <= Z.of_nat W)%Z ->
  (forall t h w, shape t = [N; C; h; w] ->
     exists ssim_val cs,
       _ssim_per_channel t t (repeat_tensor g [C; 1%nat; 1%nat; 1%nat])
         (self_data_range self) (self_k1 self) (self_k2 self)
       = inr (ssim_val, cs)
       /\ shape ssim_val = [N; C] /\ shape cs = [N; C]
       /\ forall idx, data ssim_val idx = 1 /\ data cs idx = 1) ->
  (self_reduction self = "none" ->
   exists loss, forward self x x = inr loss
                /\ shape loss = [N] /\ forall n, data loss [n] = 0)
  /\ (self_reduction self = "mean" ->
      exists loss, forward self x x = inr loss /\ shape loss = [] /\ data loss [] = 0)
  /\ (self_reduction self = "sum" ->
      exists loss, forward self x x = inr loss
                   /\ shape loss = [] /\ data loss [] = 1 - INR N).
Proof.
  intros Hval Hadj Hx HN HC Hg Hgs Hw Hlev HH HW Hprim.
  destruct (identical_metric_run x x' g (self_scale_weights self) (self_kernel_size self)
              (self_kernel_sigma self) (self_data_range self) (self_k1 self) (self_k2 self)
              N C H W k levels Hval Hadj Hx HC Hg Hgs Hw Hlev HH HW Hprim)
    as (per_item & Hrun & Hsh & Hone).
  assert (Hsize : size per_item 0 = N).
  { unfold size, dim. now rewrite Hsh. }
  assert (Hones : Forall (fun v => v = 1)
                    (map (fun n => data per_item [n]) (seq 0 (size per_item 0)))).
  { apply Forall_forall. intros v Hv. apply in_map_iff in Hv.
    destruct Hv as (n & <- & _). apply Hone. }
  unfold forward. rewrite multi_scale_ssim_reduction, Hrun. cbn [bind].
  split; [|split]; intros ->.
  - cbn [String.eqb Ascii.eqb Bool.eqb ret bind].
    eexists. split; [reflexivity|]. split; [exact Hsh|].
    intros n. cbn [tsub tmap2 ones_like data]. rewrite Hone. ring.
  - cbn [String.eqb Ascii.eqb Bool.eqb dict_get find fst snd ret bind].
    eexists. split; [reflexivity|]. split.
    + cbn [tsub tmap2 ones_like shape]. unfold mean, reduce_dim. cbn [shape].
      now rewrite Hsh.
    + cbn [tsub tmap2 ones_like data]. unfold mean. rewrite reduce_dim0_data.
      rewrite Rmean_ones; [ring | | exact Hones].
      rewrite Hsize. destruct N as [|N']; [lia|]. cbn [seq map]. discriminate.
  - cbn [String.eqb Ascii.eqb Bool.eqb dict_get find fst snd ret bind].
    eexists. split; [reflexivity|]. split.
    + cbn [tsub tmap2 ones_like shape]. unfold sum, reduce_dim. cbn [shape].
      now rewrite Hsh.
    + cbn [tsub tmap2 ones_like data]. unfold sum. rewrite reduce_dim0_data.
      rewrite Rsum_ones by exact Hones.
      now rewrite length_map, length_seq, Hsize.
Qed.


End PublicFunction.

(** The stand-in primitive that answers 1 everywhere meets the hypothesis on
    identical images. *)
Lemma unit_collaborators_on_identical_images
      (g : Tensor) (data_range k1 k2 : R) (N C : nat) (t : Tensor) (h w : nat) :
  shape t = [N; C; h; w] ->
  exists ssim_val cs,
    _ssim_per_channel (Collaborators := unit_collaborators)
      t t (repeat_tensor g [C; 1%nat; 1%nat; 1%nat]) data_range k1 k2
    = inr (ssim_val, cs)
    /\ shape ssim_val = [N; C] /\ shape cs = [N; C]
    /\ forall idx, data ssim_val idx = 1 /\ data cs idx = 1.
Proof.
  intros Ht. destruct (size_rank4 t _ _ _ _ Ht) as (H0 & H1 & _).
  exists (fst (unit_terms t)), (snd (unit_terms t)).
  split; [reflexivity|].
  cbn [unit_terms fst snd shape data]. rewrite H0, H1.
  split; [reflexivity|]. split; [reflexivity|]. intros idx. split; reflexivity.
Qed.



End Loss.

(* ===================================================================== *)
(** * Further properties: the complex combination *)
(* ===================================================================== *)

Module ComplexValues.

Import Torch Py MsSsim Reference TorchFacts Pyramid ComplexPath.
Local Open Scope R_scope.

Lemma shape_eqb_refl (sh : list nat) : shape_eqb sh sh = true.
Proof.
  unfold shape_eqb. destruct (list_eq_dec Nat.eq_dec sh sh); [reflexivity | contradiction].
Qed.

(** [torch.stack((a, b), dim=-1)] of two (N, C) tensors. *)
Lemma stack_pair_last (a b : Tensor) (N C : nat) :
  shape a = [N; C] -> shape b = [N; C] ->
  stack [a; b] (-1)
  = inr (mkTensor [N; C; 2%nat]
           (fun idx => data (nth (nth 2 idx 0%nat) [a; b] a) (remove_at 2 idx))).
Proof.
  intros Ha Hb. unfold stack. cbn [forallb]. unfold dim.
  rewrite Ha, Hb, shape_eqb_refl. reflexivity.
Qed.

Lemma complex_val_abs_shape (m w : Tensor) (L N C : nat) :
  shape m = [L; N; C; 2%nat] -> shape (complex_val_abs m w) = [N; C].
Proof.
  intros Hm. unfold complex_val_abs, prod, reduce_dim, pow_tensor, broadcast2, dim.
  cbn [shape complex_abs tsqrt tadd pow2 tmap tmap2 select_last]. now rewrite Hm.
Qed.

Lemma complex_val_deg_data (m w : Tensor) (L N C n c : nat) :
  shape m = [L; N; C; 2%nat] -> size w 0 = L ->
  data (complex_val_deg m w) [n; c]
  = Rsum (map (fun l => data (complex_deg m) [l; n; c] * data w [l]) (seq 0 L)).
Proof.
  intros Hm Hw.
  unfold complex_val_deg, sum, reduce_dim, fibre, mul_bcast, broadcast2, view_m1_1_1,
    dim, bcast_index, insert_at.
  cbn [shape data complex_deg tatan2 tmap2 select_last].
  rewrite Hm, Hw. cbn [removelast List.length axis Z.ltb Z.compare Z.to_nat nth].
  cbn [firstn skipn app List.combine].
  unfold Rsum. f_equal. apply map_ext_in. intros l Hl. apply in_seq in Hl.
  cbn [map fst snd hd].
  destruct (Nat.eqb_spec L 1) as [H1|H1]; [|reflexivity].
  replace l with 0%nat by lia. reflexivity.
Qed.

(** The value [combine_complex] returns on a (levels, N, C, 2) stack. *)
Lemma combine_complex_shape_data (stacked w : Tensor) (L N C : nat) :
  shape stacked = [L; N; C; 2%nat] ->
  exists v,
    combine_complex stacked w = inr v
    /\ shape v = [N; 2%nat]
    /\ forall n,
         data v [n; 0%nat]
         = Rmean (map (fun c => data (complex_val_abs (relu stacked) w) [n; c]
                                * cos (data (complex_val_deg (relu stacked) w) [n; c]))
                      (seq 0 C))
         /\ data v [n; 1%nat]
            = Rmean (map (fun c => data (complex_val_abs (relu stacked) w) [n; c]
                                   * sin (data (complex_val_deg (relu stacked) w) [n; c]))
                         (seq 0 C)).
Proof.
  intros Hs. unfold combine_complex. cbv zeta.
  assert (Hm : shape (relu stacked) = [L; N; C; 2%nat]) by exact Hs.
  rewrite (stack_pair_last _ _ N C)
    by (cbn [tmul tmap2 shape]; exact (complex_val_abs_shape _ w L N C Hm)).
  cbn [bind ret]. eexists. split; [reflexivity|].
  split; [reflexivity|].
  intros n. split; reflexivity.
Qed.

Lemma atan2_zero_l (x : R) : 0 <= x -> atan2 0 x = 0.
Proof.
  intros Hx. unfold atan2.
  destruct (Rlt_dec 0 x) as [Hpos|_].
  - unfold Rdiv. rewrite Rmult_0_l. apply atan_0.
  - destruct (Rlt_dec x 0); [lra|].
    destruct (Rlt_dec 0 0); [lra|]. reflexivity.
Qed.

Lemma Rsum_zeros (l : list R) : Forall (fun v => v = 0) l -> Rsum l = 0.
Proof.
  induction 1 as [|v l Hv _ IH]; cbn [Rsum fold_right]; [reflexivity|].
  fold (Rsum l). rewrite Hv, IH. ring.
Qed.



End ComplexValues.

(* ===================================================================== *)
(** * Further properties: errors of the public function and the loss *)
(* ===================================================================== *)

Module MetricErrors.

Import Torch Py MsSsim Reference TorchFacts Pyramid Metric EngineErrors.
Local Open Scope R_scope.
Local Open Scope string_scope.

Section PublicFunction.

Context {collaborators : Collaborators}.

(** No step before the reduction raises [KeyError]. *)
Lemma unreduced_not_key_error
      (x y : Tensor) (kernel_size : Z) (kernel_sigma data_range : R)
      (scale_weights : option (list R + Tensor)) (k1 k2 : R) (e : exn) (key : string) :
  multi_scale_ssim x y kernel_size kernel_sigma data_range "none" scale_weights k1 k2
  = inl e ->
  e <> KeyError key.
Proof.
  unfold multi_scale_ssim.
  destruct (_validate_input x y true kernel_size scale_weights data_range) as [o|u];
    cbn [call bind]; [intros [= <-]; discriminate|].
  destruct (_adjust_dimensions x y) as [o|[x' y']]; cbn [call bind];
    [intros [= <-]; discriminate|].
  destruct (gaussian_filter kernel_size kernel_sigma) as [o|g]; cbn [call bind];
    [intros [= <-]; discriminate|].
  cbv zeta.
  destruct (dim (div_scalar x' data_range) =? 5)%nat.
  - destruct (_multi_scale_ssim_complex _ _ _ _ _ _ _) as [e'|v] eqn:He; cbn [bind].
    + intros [= <-]. apply complex_engine_raises in He.
      destruct He as [[m ->]|[->|[->|[o ->]]]]; discriminate.
    + cbn. discriminate.
  - destruct (_multi_scale_ssim _ _ _ _ _ _ _) as [e'|v] eqn:He; cbn [bind].
    + intros [= <-]. apply real_engine_raises in He.
      destruct He as [[m ->]|[->|[->|[o ->]]]]; discriminate.
    + cbn. discriminate.
Qed.

(** X14. The reduction is looked up last.  A failure of validation or of the
    computation is raised unchanged for every reduction string, known or not;
    and a [KeyError] means that the score had been computed and that the
    reduction is none of ['none'], ['mean'], ['sum']. *)
Theorem reduction_is_looked_up_last
        (x y : Tensor) (kernel_size : Z) (kernel_sigma data_range : R) (reduction : string)
        (scale_weights : option (list R + Tensor)) (k1 k2 : R) :
  (forall e,
     multi_scale_ssim x y kernel_size kernel_sigma data_range "none" scale_weights k1 k2
     = inl e ->
     multi_scale_ssim x y kernel_size kernel_sigma data_range reduction scale_weights k1 k2
     = inl e)
  /\ (forall key,
        multi_scale_ssim x y kernel_size kernel_sigma data_range reduction scale_weights k1 k2
        = inl (KeyError key) ->
        key = reduction
        /\ reduction <> "none" /\ reduction <> "mean" /\ reduction <> "sum"
        /\ exists per_item,
             multi_scale_ssim x y kernel_size kernel_sigma data_range "none"
               scale_weights k1 k2 = inr per_item).
Proof.
  split.
  - intros e He. now rewrite multi_scale_ssim_reduction, He.
  - intros key. rewrite multi_scale_ssim_reduction.
    destruct (multi_scale_ssim x y kernel_size kernel_sigma data_range "none"
                scale_weights k1 k2) as [e|v] eqn:Hnone; cbn [bind].
    + intros [= ->]. exfalso.
      exact (unreduced_not_key_error x y kernel_size kernel_sigma data_range
               scale_weights k1 k2 _ key Hnone eq_refl).
    + destruct (String.eqb_spec reduction "none") as [E|Hn]; [discriminate|].
      unfold dict_get. cbn [find fst snd].
      destruct (String.eqb_spec "mean" reduction) as [E|Hm]; [discriminate|].
      destruct (String.eqb_spec "sum" reduction) as [E|Hs]; [discriminate|].
      cbn [bind raise]. intros [= <-].
      repeat split; try congruence. now exists v.
Qed.

(** X15. An image below the minimum size makes the public function raise
    [ValueError], whatever the reduction: for a (N, C, H, W) input, a kernel
    of side k and at least one scale weight, when H or W is below
    (k - 1) * 2^(levels - 1) + 1. *)
Theorem undersized_image_raises
        (x y : Tensor) (kernel_size : Z) (kernel_sigma data_range : R) (reduction : string)
        (scale_weights : option (list R + Tensor)) (k1 k2 : R)
        (x' y' g : Tensor) (N C H W k : nat) :
  _validate_input x y true kernel_size scale_weights data_range = inr tt ->
  _adjust_dimensions x y = inr (x', y') ->
  shape x' = [N; C; H; W] ->
  gaussian_filter kernel_size kernel_sigma = inr g ->
  shape g = [1%nat; k; k] ->
  let levels :=
    size (as_tensor (match scale_weights with
                     | None => inl scale_weights_from_ms_ssim_paper
                     | Some w => w
                     end)) 0 in
  (1 <= levels)%nat ->
  let bound := ((Z.of_nat k - 1) * 2 ^ (Z.of_nat levels - 1) + 1)%Z in
  (Z.of_nat H < bound \/ Z.of_nat W < bound)%Z ->
  exists m,
    multi_scale_ssim x y kernel_size kernel_sigma data_range reduction scale_weights k1 k2
    = inl (ValueError m)
    /\ (m == inject_Z bound)%Q.
Proof.
  intros Hval Hadj Hx Hg Hgs levels Hlev bound Hsmall.
  rewrite multi_scale_ssim_reduction. unfold multi_scale_ssim.
  rewrite Hval, Hadj, Hg. cbn [call bind]. cbv zeta.
  assert (Hdim : (dim (div_scalar x' data_range) =? 5)%nat = false).
  { unfold dim. cbn [div_scalar tmap shape]. now rewrite Hx. }
  rewrite Hdim.
  set (kernel := repeat_tensor g _).
  assert (Hk : size kernel (-1) = k).
  { subst kernel. unfold size, dim, repeat_tensor. cbn [shape]. unfold dim.
    rewrite Hgs. cbn. change (Pos.to_nat 3) with 3%nat. cbn. lia. }
  assert (Hxs : shape (div_scalar x' data_range) = [N; C; H; W]) by exact Hx.
  destruct (size_rank4 _ _ _ _ _ Hxs) as (_ & _ & _ & _ & Hw1 & Hh1).
  fold levels.
  assert (Hside : min_side kernel levels = bound).
  { unfold min_side. now rewrite Hk. }
  rewrite (real_check_raises data_range kernel k1 k2 _ _ _ Hlev)
    by (fold levels; rewrite Hside, Hw1, Hh1; lia).
  cbn [bind]. eexists. split; [reflexivity|].
  fold levels. destruct levels as [|l]; [lia|].
  rewrite min_size_of_succ, <- Hside. unfold min_side.
  now replace (Z.of_nat (S l) - 1)%Z with (Z.of_nat l) by lia.
Qed.

(** X16. The loss built with [scale_weights=None] is one minus the metric
    called with [scale_weights=None]: the default weights stored by
    [__init__] are the ones [multi_scale_ssim] falls back to.  (The validator
    sees [None] in one call and the stored tensor in the other, so it is
    assumed to answer both alike.) *)
Theorem default_loss_matches_default_metric
        (kernel_size : Z) (kernel_sigma k1 k2 : R) (reduction : string) (data_range : R)
        (prediction target : Tensor) :
  _validate_input prediction target true kernel_size None data_range
  = _validate_input prediction target true kernel_size
      (Some (inr (tensor_of_list scale_weights_from_ms_ssim_paper))) data_range ->
  forward (__init__ kernel_size kernel_sigma k1 k2 None reduction data_range)
          prediction target
  = bind (multi_scale_ssim prediction target kernel_size kernel_sigma data_range
            reduction None k1 k2)
         (fun score => ret (tsub (ones_like score) score)).
Proof.
  intros Hval. unfold forward, __init__, multi_scale_ssim.
  cbn [self_kernel_size self_kernel_sigma self_data_range self_reduction
       self_scale_weights self_k1 self_k2 as_tensor].
  now rewrite Hval.
Qed.

End PublicFunction.

Lemma sample_undersized_run :
  exists m, multi_scale_ssim x160 x160 11 1.5 1 "none" None 0.01 0.03
            = inl (ValueError m).
Proof.
  unfold multi_scale_ssim.
  cbn [_validate_input _adjust_dimensions gaussian_filter sample_collaborators call bind].
  cbv zeta.
  change (dim (div_scalar x160 1) =? 5)%nat with false. cbv iota.
  rewrite real_check_raises.
  - eexists. reflexivity.
  - vm_compute. lia.
  - right. vm_compute. reflexivity.
Qed.

Lemma reduction_is_looked_up_last_witness :
  exists m, multi_scale_ssim x160 x160 11 1.5 1 "max" None 0.01 0.03
            = inl (ValueError m).
Proof.
  destruct sample_undersized_run as [m Hm]. exists m.
  exact (proj1 (reduction_is_looked_up_last x160 x160 11 1.5 1 "max" None 0.01 0.03)
           _ Hm).
Defined.

Lemma undersized_image_raises_witness :
  exists m,
    multi_scale_ssim x160 x160 11 1.5 1 "max" None 0.01 0.03 = inl (ValueError m)
    /\ (m == inject_Z 161)%Q.
Proof.
  apply (undersized_image_raises x160 x160 11 1.5 1 "max" None 0.01 0.03
           x160 x160 (mkTensor [1%nat; Z.to_nat 11; Z.to_nat 11]
                        (fun _ => (/ IZR (11 * 11))%R))
           1 1 160 161 11).
  - reflexivity.
  - reflexivity.
  - reflexivity.
  - reflexivity.
  - reflexivity.
  - vm_compute. lia.
  - left. vm_compute. reflexivity.
Defined.

Lemma default_loss_matches_default_metric_witness :
  forward (__init__ 11 1.5 0.01 0.03 None "mean" 1) x161 y161
  = bind (multi_scale_ssim x161 y161 11 1.5 1 "mean" None 0.01 0.03)
         (fun score => ret (tsub (ones_like score) score)).
Proof.
  exact (default_loss_matches_default_metric 11 1.5 0.01 0.03 "mean" 1 x161 y161 eq_refl).
Defined.

End MetricErrors.

(* ===================================================================== *)
(** * Further properties: a run of the complex engine *)
(* ===================================================================== *)

Module ComplexRun.

Import Torch Py MsSsim Reference TorchFacts Pyramid ComplexPath ComplexValues.
Local Open Scope R_scope.

Lemma size_rank5 (x : Tensor) (n c h w : nat) :
  shape x = [n; c; h; w; 2%nat] ->
  size x 0 = n /\ size x 1 = c /\ size x 2 = h /\ size x 3 = w
  /\ size x (-2) = w /\ size x (-3) = h.
Proof. intros Hx. unfold size, dim. rewrite Hx. cbn. tauto. Qed.

Lemma stack_pair_last4 (a b : Tensor) (n c h w : nat) :
  shape a = [n; c; h; w] -> shape b = [n; c; h; w] ->
  exists t, stack [a; b] (-1) = inr t /\ shape t = [n; c; h; w; 2%nat].
Proof.
  intros Ha Hb. unfold stack. cbn [forallb]. unfold dim.
  rewrite Ha, Hb, shape_eqb_refl. cbn [andb].
  eexists. split; reflexivity.
Qed.

Lemma pooled_part_shape (t : Tensor) (n c h w k : nat) :
  shape t = [n; c; h; w; 2%nat] ->
  shape (avg_pool2d (pad_replicate (select_last t k)
                       (Nat.max (h mod 2) (w mod 2), 0, Nat.max (h mod 2) (w mod 2), 0)%nat) 2)
  = [n; c; ((h + 1) / 2)%nat; ((w + 1) / 2)%nat].
Proof.
  intros Ht.
  assert (Hs : shape (select_last t k) = [n; c; h; w]).
  { cbn [select_last shape]. now rewrite Ht. }
  destruct (padding_cases h w) as [Hph Hpw].
  rewrite (avg_pool2d_shape _ _ _ _ _ (pad_replicate_shape _ _ _ _ _ _ Hs)).
  now rewrite (pool_extent_2 _ _ Hph), (pool_extent_2 _ _ Hpw).
Qed.

Lemma downsample_complex_shape (x y : Tensor) (n c h w : nat) :
  shape x = [n; c; h; w; 2%nat] -> shape y = [n; c; h; w; 2%nat] ->
  exists x' y',
    downsample_complex x y = inr (x', y')
    /\ shape x' = [n; c; ((h + 1) / 2)%nat; ((w + 1) / 2)%nat; 2%nat]
    /\ shape y' = [n; c; ((h + 1) / 2)%nat; ((w + 1) / 2)%nat; 2%nat].
Proof.
  intros Hx Hy. unfold downsample_complex. cbv zeta.
  destruct (size_rank5 x n c h w Hx) as (_ & _ & -> & -> & _).
  destruct (stack_pair_last4 _ _ _ _ _ _
              (pooled_part_shape x n c h w 0 Hx) (pooled_part_shape x n c h w 1 Hx))
    as (x' & -> & Hx').
  destruct (stack_pair_last4 _ _ _ _ _ _
              (pooled_part_shape y n c h w 0 Hy) (pooled_part_shape y n c h w 1 Hy))
    as (y' & -> & Hy').
  cbn [bind ret]. now exists x', y'.
Qed.

Lemma pyramid_complex_sides (x y : Tensor) (N C H W i : nat) :
  shape x = [N; C; H; W; 2%nat] -> shape y = [N; C; H; W; 2%nat] ->
  exists xi yi,
    pyramid_complex i x y = inr (xi, yi)
    /\ shape xi = [N; C; level_side H i; level_side W i; 2%nat]
    /\ shape yi = [N; C; level_side H i; level_side W i; 2%nat].
Proof.
  intros Hx Hy. induction i as [|i (xi & yi & Hp & Hxi & Hyi)].
  - exists x, y. rewrite !PyramidSizes.level_side_0. now split.
  - cbn [pyramid_complex]. rewrite Hp. cbn [bind fst snd].
    rewrite !PyramidSizes.level_side_succ.
    exact (downsample_complex_shape xi yi N C _ _ Hxi Hyi).
Qed.

Section Loop.

Context {collaborators : Collaborators}.

Variables (data_range : R) (kernel : Tensor) (k1 k2 : R).

Lemma iteration_body_complex_eq (iteration : nat) (s : Locals) :
  iteration_body_complex data_range kernel k1 k2 iteration s
  = bind (if (0 <? iteration)%nat then downsample_complex (loc_x s) (loc_y s)
          else ret (loc_x s, loc_y s))
         (fun xy =>
            bind (call (_ssim_per_channel_complex (fst xy) (snd xy) kernel data_range k1 k2))
                 (fun r => ret (mkLocals (fst xy) (snd xy) (loc_mcs s ++ [snd r])
                                         (Some (fst r))))).
Proof.
  unfold iteration_body_complex, downsample_complex. cbv zeta.
  destruct (0 <? iteration)%nat.
  - destruct (stack _ (-1)) as [e|x']; [reflexivity|]. cbn [bind].
    destruct (stack _ (-1)) as [e|y']; [reflexivity|]. cbn [bind ret fst snd].
    destruct (_ssim_per_channel_complex x' y' kernel data_range k1 k2) as [o|[sv cs]];
      reflexivity.
  - cbn [bind ret fst snd].
    destruct (_ssim_per_channel_complex _ _ kernel data_range k1 k2) as [o|[sv cs]];
      reflexivity.
Qed.

Lemma for_range_pyramid_complex (x y : Tensor) (N C H W : nat) (ssim cs : nat -> Tensor) :
  shape x = [N; C; H; W; 2%nat] -> shape y = [N; C; H; W; 2%nat] ->
  forall (k a : nat) (s : Locals),
    pyramid_complex (pred a) x y = inr (loc_x s, loc_y s) ->
    (forall i, (a <= i < a + k)%nat ->
       _ssim_per_channel_complex (fst (level_complex i x y)) (snd (level_complex i x y))
         kernel data_range k1 k2
       = inr (ssim i, cs i)) ->
    exists s',
      for_range (iteration_body_complex data_range kernel k1 k2) (seq a k) s = inr s'
      /\ loc_mcs s' = loc_mcs s ++ map cs (seq a k)
      /\ loc_ssim_val s' = match k with
                           | O => loc_ssim_val s
                           | S _ => Some (ssim (pred (a + k)))
                           end.
Proof.
  intros Hx Hy. induction k as [|k IH]; intros a s Hs Hprim.
  - exists s. cbn [seq for_range map]. rewrite app_nil_r. now split.
  - cbn [seq for_range]. rewrite iteration_body_complex_eq.
    assert (Hxy : exists xa ya,
               (if (0 <? a)%nat then downsample_complex (loc_x s) (loc_y s)
                else ret (loc_x s, loc_y s)) = inr (xa, ya)
               /\ pyramid_complex a x y = inr (xa, ya)).
    { destruct a as [|a'].
      - cbn [Nat.ltb Nat.leb pred pyramid_complex] in *. exists (loc_x s), (loc_y s).
        split; [reflexivity | exact Hs].
      - cbn [pred] in Hs. cbn [pyramid_complex]. rewrite Hs. cbn [bind fst snd].
        destruct (pyramid_complex_sides x y N C H W a' Hx Hy) as (xi & yi & Hp & Hxi & Hyi).
        rewrite Hs in Hp. injection Hp as <- <-.
        destruct (downsample_complex_shape _ _ N C _ _ Hxi Hyi) as (xa & ya & Hd & _).
        exists xa, ya. change (0 <? S a')%nat with true. cbv iota. now split. }
    destruct Hxy as (xa & ya & -> & Hpa). cbn [bind fst snd].
    assert (Hlev : level_complex a x y = (xa, ya)).
    { unfold level_complex. now rewrite Hpa. }
    specialize (Hprim a ltac:(lia)) as Hpa'. rewrite Hlev in Hpa'. cbn [fst snd] in Hpa'.
    rewrite Hpa'. cbn [call bind ret fst snd].
    destruct (IH (S a) (mkLocals xa ya (loc_mcs s ++ [cs a]) (Some (ssim a))))
      as (s' & Hrun & Hmcs & Hsv).
    + exact Hpa.
    + intros i Hi. apply Hprim. lia.
    + exists s'. split; [exact Hrun|]. split.
      * rewrite Hmcs. cbn [loc_mcs map]. now rewrite <- app_assoc.
      * rewrite Hsv. cbn [loc_ssim_val].
        replace (S a + k)%nat with (a + S k)%nat by lia.
        destruct k; [|reflexivity].
        now replace (pred (a + 1)) with a by lia.
Qed.

(** The complex engine on a valid pair, with the primitive answering at every
    level: it returns the complex combination of the stacked terms. *)
Lemma complex_path_run
      (x y scale_weights_tensor : Tensor) (levels N C H W : nat)
      (ssim cs : nat -> Tensor) :
  shape x = [N; C; H; W; 2%nat] -> shape y = [N; C; H; W; 2%nat] ->
  shape scale_weights_tensor = [levels] -> (1 <= levels)%nat ->
  (min_side kernel levels <= Z.of_nat H)%Z ->
  (min_side kernel levels <= Z.of_nat W)%Z ->
  (forall i, (i < levels)%nat ->
     _ssim_per_channel_complex (fst (level_complex i x y)) (snd (level_complex i x y))
       kernel data_range k1 k2
     = inr (ssim i, cs i)) ->
  (forall i, (i < levels)%nat ->
     shape (ssim i) = [N; C; 2%nat] /\ shape (cs i) = [N; C; 2%nat]) ->
  exists stacked,
    _multi_scale_ssim_complex x y data_range kernel scale_weights_tensor k1 k2
    = combine_complex stacked scale_weights_tensor
    /\ shape stacked = [levels; N; C; 2%nat]
    /\ forall l idx, (l < levels)%nat ->
         data stacked (l :: idx) = data (spec_term levels cs ssim l) idx.
Proof.
  intros Hx Hy Hw Hlev HH HW Hprim Hshape.
  assert (Hsize : size scale_weights_tensor 0 = levels).
  { unfold size, dim. now rewrite Hw. }
  destruct (size_rank5 x N C H W Hx) as (_ & _ & _ & _ & Hw1 & Hh1).
  unfold _multi_scale_ssim_complex. cbv zeta. rewrite Hsize, Hw1, Hh1.
  rewrite size_check_spec by assumption.
  destruct (Z.ltb_spec (Z.of_nat W) (min_side kernel levels)); [lia|].
  destruct (Z.ltb_spec (Z.of_nat H) (min_side kernel levels)); [lia|].
  cbn [orb].
  destruct (for_range_pyramid_complex x y N C H W ssim cs Hx Hy levels 0
              (mkLocals x y [] None)) as (s' & -> & Hmcs & Hsv).
  { reflexivity. }
  { intros i Hi. apply Hprim. lia. }
  cbn [bind]. rewrite Hmcs, Hsv. cbn [loc_mcs loc_ssim_val app Nat.add].
  destruct levels as [|m]; [lia|]. cbn [pred stack_terms].
  rewrite collected_terms.
  assert (Hall : Forall (fun t => shape t = [N; C; 2%nat]) (map cs (seq 0 m) ++ [ssim m])).
  { apply Forall_app. split.
    - apply Forall_forall. intros t Ht. apply in_map_iff in Ht.
      destruct Ht as (i & <- & Hi). apply in_seq in Hi. apply Hshape. lia.
    - constructor; [|constructor]. apply Hshape. lia. }
  destruct (map cs (seq 0 m) ++ [ssim m]) as [|t0 ts] eqn:Hterms.
  { destruct (map cs (seq 0 m)); discriminate. }
  destruct (stack_dim0 t0 ts _ Hall) as (stacked & Hst & Hsh & Hdata).
  rewrite Hst. cbn [bind].
  assert (Hlen : List.length (t0 :: ts) = S m).
  { rewrite <- Hterms, length_app, length_map, length_seq. cbn. lia. }
  rewrite Hlen in Hsh.
  exists stacked. split; [reflexivity|]. split; [exact Hsh|].
  intros l idx Hl. rewrite Hdata, <- Hterms.
  now rewrite collected_terms_nth by lia.
Qed.

(** X12. On a valid pair of (N, C, H, W, 2) images, with the complex primitive
    answering (N, C, 2) terms at every level, the complex engine returns a
    (N, 2) tensor: one (real, imaginary) pair per batch item. *)
Theorem complex_path_returns_pairs
        (x y scale_weights_tensor : Tensor) (levels N C H W : nat)
        (ssim cs : nat -> Tensor) :
  shape x = [N; C; H; W; 2%nat] -> shape y = [N; C; H; W; 2%nat] ->
  shape scale_weights_tensor = [levels] -> (1 <= levels)%nat ->
  (min_side kernel levels <= Z.of_nat H)%Z ->
  (min_side kernel levels <= Z.of_nat W)%Z ->
  (forall i, (i < levels)%nat ->
     _ssim_per_channel_complex (fst (level_complex i x y)) (snd (level_complex i x y))
       kernel data_range k1 k2
     = inr (ssim i, cs i)) ->
  (forall i, (i < levels)%nat ->
     shape (ssim i) = [N; C; 2%nat] /\ shape (cs i) = [N; C; 2%nat]) ->
  exists msssim_val,
    _multi_scale_ssim_complex x y data_range kernel scale_weights_tensor k1 k2
    = inr msssim_val
    /\ shape msssim_val = [N; 2%nat].
Proof.
  intros Hx Hy Hw Hlev HH HW Hprim Hshape.
  destruct (complex_path_run x y scale_weights_tensor levels N C H W ssim cs
              Hx Hy Hw Hlev HH HW Hprim Hshape) as (stacked & -> & Hsh & _).
  destruct (combine_complex_shape_data stacked scale_weights_tensor levels N C Hsh)
    as (v & Hv & Hvs & _).
  exists v. now split.
Qed.

(** X13. When every term of the complex primitive is 1 + 0i, every score of the
    complex path is 1 + 0i, whatever the scale weights. *)
Theorem complex_path_score_of_unit_terms
        (x y scale_weights_tensor : Tensor) (levels N C H W : nat)
        (ssim cs : nat -> Tensor) :
  shape x = [N; C; H; W; 2%nat] -> shape y = [N; C; H; W; 2%nat] ->
  shape scale_weights_tensor = [levels] -> (1 <= levels)%nat -> (1 <= C)%nat ->
  (min_side kernel levels <= Z.of_nat H)%Z ->
  (min_side kernel levels <= Z.of_nat W)%Z ->
  (forall i, (i < levels)%nat ->
     _ssim_per_channel_complex (fst (level_complex i x y)) (snd (level_complex i x y))
       kernel data_range k1 k2
     = inr (ssim i, cs i)) ->
  (forall i, (i < levels)%nat ->
     shape (ssim i) = [N; C; 2%nat] /\ shape (cs i) = [N; C; 2%nat]) ->
  (forall i n c, (i < levels)%nat ->
     data (ssim i) [n; c; 0%nat] = 1 /\ data (ssim i) [n; c; 1%nat] = 0
     /\ data (cs i) [n; c; 0%nat] = 1 /\ data (cs i) [n; c; 1%nat] = 0) ->
  exists msssim_val,
    _multi_scale_ssim_complex x y data_range kernel scale_weights_tensor k1 k2
    = inr msssim_val
    /\ forall n, data msssim_val [n; 0%nat] = 1 /\ data msssim_val [n; 1%nat] = 0.
Proof.
  intros Hx Hy Hw Hlev HC HH HW Hprim Hshape Hunit.
  destruct (complex_path_run x y scale_weights_tensor levels N C H W ssim cs
              Hx Hy Hw Hlev HH HW Hprim Hshape) as (stacked & -> & Hsh & Hdata).
  assert (Hsize : size scale_weights_tensor 0 = levels).
  { unfold size, dim. now rewrite Hw. }
  destruct (combine_complex_shape_data stacked scale_weights_tensor levels N C Hsh)
    as (v & Hv & _ & Hvd).
  exists v. split; [exact Hv|].
  assert (Hm : shape (relu stacked) = [levels; N; C; 2%nat]) by exact Hsh.
  assert (Hterm : forall l n c, (l < levels)%nat ->
             data stacked [l; n; c; 0%nat] = 1 /\ data stacked [l; n; c; 1%nat] = 0).
  { intros l n c Hl. rewrite !Hdata by lia.
    destruct (Hunit l n c Hl) as (H1 & H2 & H3 & H4).
    destruct (RealValues.spec_term_cases levels cs ssim l) as [-> | ->]; now split. }
  assert (Hdeg : forall n c,
             data (complex_val_deg (relu stacked) scale_weights_tensor) [n; c] = 0).
  { intros n c. rewrite (complex_val_deg_data _ _ levels N C n c Hm Hsize).
    apply Rsum_zeros. apply Forall_forall. intros u Hu. apply in_map_iff in Hu.
    destruct Hu as (l & <- & Hl). apply in_seq in Hl.
    rewrite complex_deg_data. cbn [relu tmap data app].
    destruct (Hterm l n c ltac:(lia)) as [-> ->].
    rewrite (Rmax_left 0 0), (Rmax_right 0 1) by lra.
    rewrite atan2_zero_l by lra. ring. }
  assert (Habs : forall n c,
             data (complex_val_abs (relu stacked) scale_weights_tensor) [n; c] = 1).
  { intros n c. rewrite (complex_val_abs_data _ _ levels N C n c Hm Hsize).
    apply RealValues.Rprod_ones. apply Forall_forall. intros u Hu. apply in_map_iff in Hu.
    destruct Hu as (l & <- & Hl). apply in_seq in Hl.
    rewrite complex_abs_data. cbn [relu tmap data app].
    destruct (Hterm l n c ltac:(lia)) as [-> ->].
    rewrite (Rmax_left 0 0), (Rmax_right 0 1) by lra.
    replace (1 ^ 2 + 0 ^ 2) with 1 by ring.
    rewrite sqrt_1. apply RealValues.rpow_one_base. }
  intros n. destruct (Hvd n) as [-> ->]. split.
  - apply RealValues.Rmean_ones.
    + destruct C as [|C']; [lia|]. cbn [seq map]. discriminate.
    + apply Forall_forall. intros u Hu. apply in_map_iff in Hu.
      destruct Hu as (c & <- & _). rewrite Hdeg, Habs, cos_0. ring.
  - unfold Rmean. rewrite Rsum_zeros; [unfold Rdiv; ring|].
    apply Forall_forall. intros u Hu. apply in_map_iff in Hu.
    destruct Hu as (c & <- & _). rewrite Hdeg, sin_0. ring.
Qed.

End Loop.

(** ** Runs on the sample inputs *)

Lemma unit_terms_complex_shapes (i : nat) :
  shape (fst (unit_terms_complex (fst (level_complex i z161 z161)))) = [1; 1; 2]%nat
  /\ shape (snd (unit_terms_complex (fst (level_complex i z161 z161)))) = [1; 1; 2]%nat.
Proof.
  destruct (pyramid_complex_sides z161 z161 1 1 161 162 i eq_refl eq_refl)
    as (xi & yi & Hp & Hxi & _).
  unfold level_complex. rewrite Hp. cbn [fst].
  destruct (size_rank5 xi _ _ _ _ Hxi) as (H0 & H1 & _).
  cbn [unit_terms_complex fst snd shape]. rewrite H0, H1. now split.
Qed.

Lemma complex_path_returns_pairs_witness :
  exists msssim_val,
    _multi_scale_ssim_complex (collaborators := unit_collaborators)
      z161 z161 1 sample_kernel default_weights 0.01 0.03 = inr msssim_val
    /\ shape msssim_val = [1; 2]%nat.
Proof.
  apply (complex_path_returns_pairs (collaborators := unit_collaborators)
           1 sample_kernel 0.01 0.03 z161 z161 default_weights 5 1 1 161 162
           (fun i => fst (unit_terms_complex (fst (level_complex i z161 z161))))
           (fun i => snd (unit_terms_complex (fst (level_complex i z161 z161))))).
  - reflexivity.
  - reflexivity.
  - reflexivity.
  - lia.
  - vm_compute. discriminate.
  - vm_compute. discriminate.
  - intros i _. reflexivity.
  - intros i _. exact (unit_terms_complex_shapes i).
Defined.

Lemma complex_path_score_of_unit_terms_witness :
  exists msssim_val,
    _multi_scale_ssim_complex (collaborators := unit_collaborators)
      z161 z161 1 sample_kernel default_weights 0.01 0.03 = inr msssim_val
    /\ data msssim_val [0; 0]%nat = 1 /\ data msssim_val [0; 1]%nat = 0.
Proof.
  destruct (complex_path_score_of_unit_terms (collaborators := unit_collaborators)
              1 sample_kernel 0.01 0.03 z161 z161 default_weights 5 1 1 161 162
              (fun i => fst (unit_terms_complex (fst (level_complex i z161 z161))))
              (fun i => snd (unit_terms_complex (fst (level_complex i z161 z161)))))
    as (v & Hrun & Hv).
  - reflexivity.
  - reflexivity.
  - reflexivity.
  - lia.
  - lia.
  - vm_compute. discriminate.
  - vm_compute. discriminate.
  - intros i _. reflexivity.
  - intros i _. exact (unit_terms_complex_shapes i).
  - intros i n c _. cbn. tauto.
  - exists v. split; [exact Hrun | exact (Hv 0%nat)].
Defined.

End ComplexRun.

(* ===================================================================== *)
(** * The clamp of the complex path *)
(* ===================================================================== *)

Module ComplexClamp.

Import Torch Py MsSsim Reference TorchFacts Pyramid ComplexPath ComplexValues ComplexRun.
Local Open Scope R_scope.

Lemma level_magnitude_eq (stacked : Tensor) (l n c : nat) :
  data (complex_abs (relu stacked)) [l; n; c] = level_magnitude stacked l n c.
Proof.
  rewrite complex_abs_data. unfold level_magnitude, clamped_re, clamped_im.
  now rewrite !spec_clamp_relu.
Qed.

Lemma level_phase_eq (stacked : Tensor) (l n c : nat) :
  data (complex_deg (relu stacked)) [l; n; c] = level_phase stacked l n c.
Proof.
  rewrite complex_deg_data. unfold level_phase, clamped_re, clamped_im.
  now rewrite !spec_clamp_relu.
Qed.

Lemma channel_magnitude_eq (stacked w : Tensor) (L N C n c : nat) :
  shape stacked = [L; N; C; 2%nat] -> size w 0 = L ->
  data (complex_val_abs (relu stacked) w) [n; c] = channel_magnitude stacked w L n c.
Proof.
  intros Hs Hw. rewrite (complex_val_abs_data (relu stacked) w L N C n c Hs Hw).
  unfold channel_magnitude. f_equal. apply map_ext. intros l.
  now rewrite level_magnitude_eq.
Qed.

Lemma channel_phase_eq (stacked w : Tensor) (L N C n c : nat) :
  shape stacked = [L; N; C; 2%nat] -> size w 0 = L ->
  data (complex_val_deg (relu stacked) w) [n; c] = channel_phase stacked w L n c.
Proof.
  intros Hs Hw. rewrite (complex_val_deg_data (relu stacked) w L N C n c Hs Hw).
  unfold channel_phase. f_equal. apply map_ext. intros l.
  now rewrite level_phase_eq.
Qed.

Lemma level_phase_first_quadrant (stacked : Tensor) (l n c : nat) :
  0 <= level_phase stacked l n c <= PI / 2.
Proof.
  unfold level_phase, clamped_re, clamped_im. rewrite !spec_clamp_relu.
  apply atan2_first_quadrant; apply relu_nonneg.
Qed.

Lemma level_magnitude_of_negative_parts (stacked : Tensor) (l n c : nat) :
  data stacked [l; n; c; 0%nat] < 0 -> data stacked [l; n; c; 1%nat] < 0 ->
  level_magnitude stacked l n c = 0.
Proof.
  intros Hre Him. unfold level_magnitude, clamped_re, clamped_im, spec_clamp.
  destruct (Rlt_dec _ 0); [|lra]. destruct (Rlt_dec _ 0); [|lra].
  replace (0 ^ 2 + 0 ^ 2) with 0 by ring. apply sqrt_0.
Qed.

Section Loop.

Context {collaborators : Collaborators}.

Variables (data_range : R) (kernel : Tensor) (k1 k2 : R).


End Loop.


End ComplexClamp.
